(** * pediatricIQphantoms: identity generation, persistence and metadata
      extraction of [make_phantoms.py]

    A shallow embedding of [src/pediatricIQphantoms/make_phantoms.py].
    Python strings are lists of characters, integers are [Z], floats that
    are only compared, scaled or divided are exact rationals [Q], and the
    TG204 age curve (which needs [exp] and fractional powers) lives in
    [R].  Exceptions are values of the [result] type. *)

From Stdlib Require Import String Ascii.
From Stdlib Require Import ZArith QArith Qround Bool Lia Arith List.
From Stdlib Require Import DecimalString DecimalZ DecimalPos.
From Stdlib Require Import Reals Lra.
Import ListNotations.

(** ** Python strings *)

Definition str := list ascii.

(** String literals of the source. *)
Definition lit (s : string) : str := list_ascii_of_string s.

(** ** Exceptions *)

Inductive exn :=
| ValueError | TypeError | AssertionError | IndexError | KeyError
| NameError | AttributeError | FileNotFoundError | OverflowError.

Inductive result (A : Type) :=
| Ok (a : A)
| Raise (e : exn).
Arguments Ok {A} a.
Arguments Raise {A} e.

Definition bind {A B} (m : result A) (k : A -> result B) : result B :=
  match m with
  | Ok a => k a
  | Raise e => Raise e
  end.

Notation "x <- m ;; k" := (bind m (fun x => k))
  (at level 61, m at next level, right associativity).
Notation "' p <- m ;; k" := (bind m (fun x => let p := x in k))
  (at level 61, p pattern, m at next level, right associativity).

Definition of_option {A} (e : exn) (o : option A) : result A :=
  match o with
  | Some a => Ok a
  | None => Raise e
  end.

(** [mapM f l]: a loop that collects the results of [f] and stops at the
    first exception. *)
Fixpoint mapM {A B} (f : A -> result B) (l : list A) : result (list B) :=
  match l with
  | [] => Ok []
  | x :: l' => y <- f x ;; ys <- mapM f l' ;; Ok (y :: ys)
  end.

(** [enumerate(l)] *)
Fixpoint enumerate_from {A} (i : Z) (l : list A) : list (Z * A) :=
  match l with
  | [] => []
  | x :: l' => (i, x) :: enumerate_from (i + 1) l'
  end.
Definition enumerate {A} (l : list A) : list (Z * A) := enumerate_from 0 l.

(** ** String operations of the Python standard library *)

Module Py.

(** [s.startswith(p)], returning the rest of [s]. *)
Fixpoint strip_prefix (p s : str) : option str :=
  match p, s with
  | [], _ => Some s
  | a :: p', b :: s' => if Ascii.eqb a b then strip_prefix p' s' else None
  | _ :: _, [] => None
  end.

Definition startswith (p s : str) : bool :=
  match strip_prefix p s with Some _ => true | None => false end.

Definition endswith (suf s : str) : bool := startswith (rev suf) (rev s).

(** [s.partition(sep)]: the text before and after the first occurrence of
    [sep], [None] when [sep] does not occur. *)
Fixpoint partition (sep s : str) : option (str * str) :=
  match strip_prefix sep s with
  | Some r => Some ([], r)
  | None =>
      match s with
      | [] => None
      | c :: s' =>
          match partition sep s' with
          | Some (a, b) => Some (c :: a, b)
          | None => None
          end
      end
  end.

(** [sub in s] *)
Definition contains (sub s : str) : bool :=
  match partition sub s with Some _ => true | None => false end.

(** [s.split(sep)] for a non-empty [sep] (every separator of the source is
    a non-empty literal).  Each round consumes at least one character, so
    [length s] rounds are enough (lemma [split_eq]). *)
Fixpoint split_fuel (n : nat) (sep s : str) : list str :=
  match n with
  | O => [s]
  | S n' =>
      match partition sep s with
      | None => [s]
      | Some (a, b) => a :: split_fuel n' sep b
      end
  end.

Definition split (sep s : str) : list str := split_fuel (length s) sep s.

(** [s.replace(old, new)]: every non-overlapping occurrence, left to
    right.  With an empty [old] Python inserts [new] around every
    character. *)
Fixpoint replace_fuel (n : nat) (old new s : str) : str :=
  match n with
  | O => s
  | S n' =>
      match partition old s with
      | None => s
      | Some (a, b) => a ++ new ++ replace_fuel n' old new b
      end
  end.

Definition replace (old new s : str) : str :=
  match old with
  | [] => new ++ flat_map (fun c => c :: new) s
  | _ => replace_fuel (length s) old new s
  end.

(** [l[-1]] of a list of strings, [l[i]]. *)
Definition last_item (l : list str) : str := last l [].
Definition item (i : nat) (l : list str) : result str :=
  of_option IndexError (nth_error l i).

(** Whitespace of [str.strip()] within ASCII. *)
Definition is_space (c : ascii) : bool :=
  let n := nat_of_ascii c in
  ((9 <=? n) && (n <=? 13) || (28 <=? n) && (n <=? 32))%nat.

Fixpoint lstrip (s : str) : str :=
  match s with
  | c :: s' => if is_space c then lstrip s' else s
  | [] => []
  end.
Definition rstrip (s : str) : str := rev (lstrip (rev s)).
Definition strip (s : str) : str := rstrip (lstrip s).

(** [s.upper()] within ASCII. *)
Definition upper_char (c : ascii) : ascii :=
  let n := nat_of_ascii c in
  if ((97 <=? n) && (n <=? 122))%nat then ascii_of_nat (n - 32) else c.
Definition upper (s : str) : str := map upper_char s.

Definition eqb (a b : str) : bool :=
  if list_eq_dec ascii_dec a b then true else false.

(** [x in l] for a list of strings *)
Definition mem (x : str) (l : list str) : bool := existsb (eqb x) l.

(** *** Integers and floats as text *)

(** [str(z)] *)
Definition str_of_int (z : Z) : str :=
  list_ascii_of_string (NilZero.string_of_int (Z.to_int z)).

(** [int(s)]: surrounding whitespace, an optional sign and decimal digits
    (leading zeros allowed).  Digit-group underscores are not modelled. *)
Definition int_of_str (s : str) : result Z :=
  let t := strip s in
  of_option ValueError
    match t with
    | c :: r =>
        if Ascii.eqb c "+" then
          option_map (fun u => Z.of_int (Decimal.Pos u))
            (NilZero.uint_of_string (string_of_list_ascii r))
        else
          option_map Z.of_int (NilZero.int_of_string (string_of_list_ascii t))
    | [] => None
    end.

(** [s.zfill]-like left padding used by the format specification [03d]. *)
Definition zero_pad (w : nat) (s : str) : str :=
  repeat "0"%char (w - length s) ++ s.

(** [f'{z:03d}']: sign-aware zero padding to a width of at least 3. *)
Definition fmt_03d (z : Z) : str :=
  if (z <? 0)%Z then "-"%char :: zero_pad 2 (str_of_int (- z))
  else zero_pad 3 (str_of_int z).

(** [f'{d/10}'] for an integer [d]: the float [d/10] printed by [repr].
    For [|d| < 10^16] the shortest round-tripping text of the float nearest
    to [d/10] is the integer part, a point and one fractional digit
    (beyond that [repr] switches to exponent notation). *)
Definition repr_div10 (d : Z) : str :=
  let a := Z.abs d in
  (if (d <? 0)%Z then ["-"%char] else [])
    ++ str_of_int (a / 10) ++ "."%char :: str_of_int (a mod 10).

(** Digits of an unsigned decimal part; the empty text counts as 0. *)
Definition digits_value (s : str) : option Z :=
  option_map (fun u => Z.of_int (Decimal.Pos u))
    (NilEmpty.uint_of_string (string_of_list_ascii s)).

Definition pow10 (k : nat) : positive := Nat.iter k (Pos.mul 10) 1%positive.

(** The digits of a float text after its sign: an integer part and an
    optional fractional part, at least one digit in all. *)
Definition float_of_digits (neg : bool) (body : str) : result Q :=
  let '(ip, fp) :=
    match partition ["."%char] body with
    | Some (a, b) => (a, b)
    | None => (body, [])
    end in
  if (length ip + length fp =? 0)%nat then Raise ValueError else
  match digits_value ip, digits_value fp with
  | Some a, Some b =>
      let den := pow10 (length fp) in
      let num := (a * Z.pos den + b)%Z in
      Ok (Qmake (if neg then (- num)%Z else num) den)
  | _, _ => Raise ValueError
  end.

(** [float(s)] for plain decimal texts: surrounding whitespace, an optional
    sign, digits with an optional fractional part.  The float is
    represented by the rational its text denotes; exponents, [inf] and
    [nan] are not modelled. *)
Definition float_of_str (s : str) : result Q :=
  let t := strip s in
  match t with
  | c :: r =>
      if Ascii.eqb c "-" then float_of_digits true r
      else if Ascii.eqb c "+" then float_of_digits false r
      else float_of_digits false t
  | [] => float_of_digits false t
  end.

(** Characters of the text of an integer. *)
Definition digit (c : ascii) : Prop := In c (lit "0123456789").
Definition num_char (c : ascii) : Prop := In c (lit "-0123456789").


End Py.

(** ** The simulation wrapper [mirt_sim] *)

(** Values the [lesion_diameter] argument takes: the default [False], a
    number, a list, or a one-dimensional numpy array. *)
Inductive lesion :=
| LBool (b : bool)
| LInt (z : Z)
| LFloat (q : Q)
| LList (l : list Q)
| LArray (l : list Q).

(** Truth value of [if lesion_diameter:] (an array has been turned into a
    list before). *)
Definition truthy (v : lesion) : bool :=
  match v with
  | LBool b => b
  | LInt z => negb (z =? 0)%Z
  | LFloat q => negb (Qeq_bool q 0)
  | LList l | LArray l => match l with [] => false | _ => true end
  end.

(** [isinstance(v, int | float)]; [bool] is a subclass of [int]. *)
Definition is_number (v : lesion) : bool :=
  match v with
  | LBool _ | LInt _ | LFloat _ => true
  | LList _ | LArray _ => false
  end.

(** [len(v)]; numbers have no length. *)
Definition len (v : lesion) : result Z :=
  match v with
  | LList l | LArray l => Ok (Z.of_nat (length l))
  | _ => Raise TypeError
  end.

(** A Python [bool] used as an integer by [&] and [~]. *)
Definition int_of_bool (b : bool) : Z := if b then 1 else 0.

Definition aliases : list str :=
  [lit "MITA-LCD"; lit "MITA"; lit "MITALCD"; lit "LCD"].

(** [if phantom in [...]: phantom = 'CCT189'] *)
Definition normalise (phantom : str) : str :=
  if Py.mem phantom aliases then lit "CCT189" else phantom.

(** Scanner and reconstruction arguments that are handed on unchanged. *)
Record geometry := {
  nb : Z; na : Z; ds : Q; sid : Q; sdd : Q; offset_s : Q; down : Z;
  has_bowtie : bool; aec_on : bool; nx : Z; fbp_kernel : str
}.

Inductive entry_point := ct_sim | ct_sim_quiet.

(** The call that [mirt_sim] makes to Octave, after [octave.cd(curdir)]. *)
Record octave_call := {
  oc_entry : entry_point;
  oc_phantom : str;
  oc_patient_diameter : Q;
  oc_reference_diameter : Q;
  oc_lesion_diameter : lesion;
  oc_I0 : Q;
  oc_geometry : geometry;
  oc_add_noise : bool;
  oc_fov : Q;
  oc_nsims : Z
}.

(** The two shape checks under [if lesion_diameter:].  [&] evaluates both
    operands, [~] is the bitwise complement of the integer value of the
    [isinstance] result. *)
Definition check_lesion (phantom : str) (lesion_diameter : lesion) : result unit :=
  if truthy lesion_diameter then
    _ <- (if negb (Z.land (int_of_bool (Py.eqb (Py.upper phantom) (lit "CTP404")))
                     (Z.lnot (int_of_bool (is_number lesion_diameter))) =? 0)%Z
          then Raise ValueError else Ok tt) ;;
    n <- len lesion_diameter ;;
    if Py.eqb phantom (lit "CCT189") && negb (n =? 4)%Z
    then Raise ValueError else Ok tt
  else Ok tt.

(** [mirt_sim]: [Raise e] is an exception raised before Octave is touched;
    [Ok c] stands for [octave.cd(curdir)] followed by the call [c].  The
    [fov] argument is overwritten before use and therefore left out. *)
Definition mirt_sim (phantom : str)
    (patient_diameter reference_diameter reference_fov I0 : Q)
    (g : geometry) (add_noise : bool) (nsims : Z)
    (lesion_diameter : lesion) (verbose : bool) : result octave_call :=
  let phantom := normalise phantom in
  let fov :=
    if Qeq_bool patient_diameter reference_diameter then reference_fov
    else (1.1 * patient_diameter)%Q in
  let lesion_diameter :=
    match lesion_diameter with LArray l => LList l | v => v end in
  _ <- check_lesion phantom lesion_diameter ;;
  Ok {| oc_entry := if verbose then ct_sim else ct_sim_quiet;
        oc_phantom := phantom;
        oc_patient_diameter := patient_diameter;
        oc_reference_diameter := reference_diameter;
        oc_lesion_diameter := lesion_diameter;
        oc_I0 := I0;
        oc_geometry := g;
        oc_add_noise := add_noise;
        oc_fov := fov;
        oc_nsims := nsims |}.

(** ** The age curve *)

Inductive subgroup := newborn | infant | child | adolescent | adult.

Definition adult_waist_circumferences_cm : list (Z * R) :=
  [(30%Z, 99.9%R); (40%Z, 102.8%R); (60%Z, 106.2%R); (70%Z, 106.6%R);
   (80%Z, 104.1%R)].

(** [d[k]] *)
Fixpoint dict_get (k : Z) (d : list (Z * R)) : result R :=
  match d with
  | [] => Raise KeyError
  | (k', v) :: d' => if (k =? k')%Z then Ok v else dict_get k d'
  end.

Definition round_to_decile (age : Z) : Z := age - age mod 10.

(** [x ** y] on floats for [0 <= x] and [0 < y], over the reals.  (A
    negative base gives a complex number in Python, which the real-valued
    model does not represent.) *)
Definition float_pow (x y : R) : R :=
  if Req_dec_T x 0 then 0%R else Rpower x y.

Definition age_to_eff_diameter (age : Z) : result R :=
  if (22 <? age)%Z then
    dict_get (round_to_decile age) adult_waist_circumferences_cm
  else
    let x := IZR age in
    let a := 18.788598%R in
    let b := 0.19486455%R in
    let c := (-1.060056)%R in
    let d := (-7.6244784)%R in
    Ok (a + b * float_pow x 1.5 + c * float_pow x 0.5 + d * exp (- x))%R.

Definition Rltb (x y : R) : bool := if Rlt_dec x y then true else false.
Definition Rgeb (x y : R) : bool := if Rge_dec x y then true else false.

Definition pediatric_subgroup (diameter : R) : result subgroup :=
  a1 <- age_to_eff_diameter 1 ;;
  if Rltb diameter a1 then Ok newborn else
  a1 <- age_to_eff_diameter 1 ;;
  a5 <- age_to_eff_diameter 5 ;;
  if Rgeb diameter a1 && Rltb diameter a5 then Ok infant else
  a5 <- age_to_eff_diameter 5 ;;
  a12 <- age_to_eff_diameter 12 ;;
  if Rgeb diameter a5 && Rltb diameter a12 then Ok child else
  a12 <- age_to_eff_diameter 12 ;;
  a22 <- age_to_eff_diameter 22 ;;
  if Rgeb diameter a12 && Rltb diameter a22 then Ok adolescent else
  Ok adult.

Definition subgroup_to_age (group : subgroup) : Q :=
  match group with
  | newborn => 1 / 12
  | infant => 2
  | child => 12
  | adolescent => 21
  | adult => 39
  end.

(** ** DICOM data sets and paths *)

(** The header fields of a data set that carry identity and are read back
    by the metadata extractor.  Pixel data, geometry, dates and the free
    text built from the float [I0] are left out: no property below reads
    them. *)
Record dataset := {
  PatientName : str;
  PatientID : str;
  PatientAge : str;
  ImageComments : str;
  StudyID : str;
  SeriesNumber : Z;
  AcquisitionNumber : Z;
  InstanceNumber : Z;
  SeriesInstanceUID : str;
  StudyInstanceUID : str;
  SOPInstanceUID : str;
  MediaStorageSOPInstanceUID : str
}.

(** The same fields of [CT_small.dcm], the pydicom test file every data
    set starts from. *)
Definition CT_small : dataset := {|
  PatientName := lit "CompressedSamples^CT1";
  PatientID := lit "1CT1";
  PatientAge := lit "000Y";
  ImageComments := lit "Uncompressed";
  StudyID := lit "1CT1";
  SeriesNumber := 1;
  AcquisitionNumber := 2;
  InstanceNumber := 1;
  SeriesInstanceUID := lit "1.3.6.1.4.1.5962.1.3.1.1.20040119072730.12322";
  StudyInstanceUID := lit "1.3.6.1.4.1.5962.1.2.1.20040119072730.12322";
  SOPInstanceUID := lit "1.3.6.1.4.1.5962.1.1.1.1.1.20040119072730.12322";
  MediaStorageSOPInstanceUID :=
    lit "1.3.6.1.4.1.5962.1.1.1.1.1.20040119072730.12322"
|}.

(** An absolute [pathlib.Path]: its parts below the root.  Every part the
    program appends is a plain file name (non-empty, without a slash), for
    which [p / c] adds one part. *)
Definition Path := list str.

Definition path_str (p : Path) : str := flat_map (fun c => "/"%char :: c) p.
Definition name (p : Path) : str := last p [].
Definition parent (p : Path) : Path := removelast p.
Definition joinpath (p : Path) (c : str) : Path := p ++ [c].

(** [s.rpartition(c)]: around the last occurrence of the character [c]. *)
Definition rpartition (c : ascii) (s : str) : option (str * str) :=
  match Py.partition [c] (rev s) with
  | Some (a, b) => Some (rev b, rev a)
  | None => None
  end.

(** [Path.suffix] and [Path.stem]: the last dot of the name splits it
    unless the dot is its first or last character. *)
Definition suffix (p : Path) : str :=
  match rpartition "."%char (name p) with
  | Some (_ :: _, (_ :: _) as ext) => "."%char :: ext
  | _ => []
  end.

Definition stem (p : Path) : str :=
  match rpartition "."%char (name p) with
  | Some ((_ :: _) as base, _ :: _) => base
  | _ => name p
  end.

(** Files written, oldest first. *)
Definition writes := list (Path * dataset).

(** [pydicom.read_file(fname)]: the most recent file written to [fname];
    the encoding of the header on disk is taken to give every field back
    as it was written. *)
Definition read_file (disk : writes) (fname : Path) : result dataset :=
  of_option FileNotFoundError
    (option_map snd
       (find (fun w => if list_eq_dec (list_eq_dec ascii_dec) (fst w) fname
                       then true else false) (rev disk))).

(** ** UID derivation *)

(** [uid.split('.')[-1]] *)
Definition final_segment (uid : str) : str :=
  Py.last_item (Py.split (lit ".") uid).

(** [end = uid.split('.')[-1]; new_end = str(int(end) + off);
    uid.replace(end, new_end)] *)
Definition offset_uid (uid : str) (off : Z) : result str :=
  let end_ := final_segment uid in
  n <- Py.int_of_str end_ ;;
  Ok (Py.replace end_ (Py.str_of_int (n + off)) uid).

(** ** The parameter set [CTobj] *)

Definition image := list (list Z).

(** Arrays returned by the simulation: one image or a stack of images. *)
Inductive ndarray :=
| Arr2 (img : image)
| Arr3 (imgs : list image).

(** [a[None] if a.ndim == 2 else a], as the list of its slices. *)
Definition slices (a : ndarray) : list image :=
  match a with
  | Arr2 img => [img]
  | Arr3 imgs => imgs
  end.

Record CTobj := {
  phantom : str;
  patient_diameter : Z;
  reference_diameter : Q;
  reference_fov : Q;
  I0 : Q;
  geom : geometry;
  add_noise : bool;
  fov : Q;
  nsims : Z;
  lesion_diameter : lesion;
  age : Z;
  patientname : str;
  patientid : Z;
  studyname : str;
  studyid : Z;
  seriesid : Z;
  recon : option ndarray;
  projections : option ndarray;
  groundtruth : option ndarray
}.

(** Keyword arguments of the constructor.  Diameters are whole millimetres;
    an empty name stands for the default [""].  ([seriesname] only feeds a
    description text and is left out with it.) *)
Record ctor_args := {
  k_phantom : str;
  k_patient_diameter : Z;
  k_reference_diameter : Q;
  k_reference_fov : Q;
  k_I0 : Q;
  k_geom : geometry;
  k_add_noise : bool;
  k_fov : Q;
  k_nsims : Z;
  k_lesion_diameter : lesion;
  k_age : Z;
  k_patientname : str;
  k_patientid : Z;
  k_studyname : str;
  k_studyid : Z;
  k_seriesid : Z
}.

Definition default_geometry : geometry := {|
  nb := 900; na := 580; ds := 1; sid := 595; sdd := 1085.6;
  offset_s := 1.25; down := 1; has_bowtie := false; aec_on := true;
  nx := 512; fbp_kernel := lit "hanning,2.05"
|}.

Definition default_args : ctor_args := {|
  k_phantom := lit "CCT189";
  k_patient_diameter := 200;
  k_reference_diameter := 200;
  k_reference_fov := 340;
  k_I0 := 300000;
  k_geom := default_geometry;
  k_add_noise := true;
  k_fov := 340;
  k_nsims := 1;
  k_lesion_diameter := LBool false;
  k_age := 0;
  k_patientname := [];
  k_patientid := 0;
  k_studyname := [];
  k_studyid := 0;
  k_seriesid := 0
|}.

Definition options : list str := [lit "CTP404"; lit "CCT189"; lit "UNIFORM"].

(** [a or b] on strings *)
Definition or_else (a b : str) : str :=
  match a with [] => b | _ => a end.

(** [CTobj.__init__] *)
Definition CTobj_init (k : ctor_args) : result CTobj :=
  let phantom := normalise (k_phantom k) in
  if negb (Py.mem (Py.upper phantom) options) then Raise ValueError else
  let patientname :=
    or_else (k_patientname k)
      (Py.repr_div10 (k_patient_diameter k) ++ lit " cm " ++ phantom) in
  Ok {| phantom := phantom;
        patient_diameter := k_patient_diameter k;
        reference_diameter := k_reference_diameter k;
        reference_fov := k_reference_fov k;
        I0 := k_I0 k;
        geom := k_geom k;
        add_noise := k_add_noise k;
        fov := k_fov k;
        nsims := k_nsims k;
        lesion_diameter := k_lesion_diameter k;
        age := k_age k;
        patientname := patientname;
        patientid := k_patientid k;
        studyname := or_else (k_studyname k) patientname;
        studyid := k_studyid k;
        seriesid := k_seriesid k;
        recon := None;
        projections := None;
        groundtruth := None |}.

(** What Octave returns: [recon], [sinogram_noiseless], [ground_truth]. *)
Record sim_output := {
  out_recon : ndarray;
  out_sinogram_noiseless : ndarray;
  out_ground_truth : ndarray
}.

Definition set_results (self : CTobj) (r : sim_output) : CTobj :=
  {| phantom := phantom self;
     patient_diameter := patient_diameter self;
     reference_diameter := reference_diameter self;
     reference_fov := reference_fov self;
     I0 := I0 self;
     geom := geom self;
     add_noise := add_noise self;
     fov := fov self;
     nsims := nsims self;
     lesion_diameter := lesion_diameter self;
     age := age self;
     patientname := patientname self;
     patientid := patientid self;
     studyname := studyname self;
     studyid := studyid self;
     seriesid := seriesid self;
     recon := Some (out_recon r);
     projections := Some (out_sinogram_noiseless r);
     groundtruth := Some (out_ground_truth r) |}.

(** [self.recon = v] *)
Definition set_recon (self : CTobj) (v : ndarray) : CTobj :=
  {| phantom := phantom self;
     patient_diameter := patient_diameter self;
     reference_diameter := reference_diameter self;
     reference_fov := reference_fov self;
     I0 := I0 self;
     geom := geom self;
     add_noise := add_noise self;
     fov := fov self;
     nsims := nsims self;
     lesion_diameter := lesion_diameter self;
     age := age self;
     patientname := patientname self;
     patientid := patientid self;
     studyname := studyname self;
     studyid := studyid self;
     seriesid := seriesid self;
     recon := Some v;
     projections := projections self;
     groundtruth := groundtruth self |}.

(** [ct.nsims = 1; ct.add_noise = False] *)
Definition set_noise_free (self : CTobj) : CTobj :=
  {| phantom := phantom self;
     patient_diameter := patient_diameter self;
     reference_diameter := reference_diameter self;
     reference_fov := reference_fov self;
     I0 := I0 self;
     geom := geom self;
     add_noise := false;
     fov := fov self;
     nsims := 1;
     lesion_diameter := lesion_diameter self;
     age := age self;
     patientname := patientname self;
     patientid := patientid self;
     studyname := studyname self;
     studyid := studyid self;
     seriesid := seriesid self;
     recon := recon self;
     projections := projections self;
     groundtruth := groundtruth self |}.

(** ** Running the simulation and persisting it *)

Fixpoint foldM {A S} (f : S -> A -> result S) (l : list A) (s : S) : result S :=
  match l with
  | [] => Ok s
  | x :: l' => s' <- f s x ;; foldM f l' s'
  end.

Section Persist.

(** The Octave simulation, an external collaborator. *)
Variable octave : octave_call -> result sim_output.

(** The data set read from the template file on every call. *)
Variable tmpl : dataset.

(** [CTobj.run] *)
Definition run (self : CTobj) (verbose : bool) : result CTobj :=
  c <- mirt_sim (phantom self) (inject_Z (patient_diameter self))
         (reference_diameter self) (reference_fov self) (I0 self)
         (geom self) (add_noise self) (nsims self) (lesion_diameter self)
         verbose ;;
  resdict <- octave c ;;
  Ok (set_results self resdict).

(** Header fields set before the slice loop. *)
Definition header (self : CTobj) (series_uid study_uid : str) : dataset :=
  {| PatientName := patientname self;
     PatientID := Py.fmt_03d (patientid self);
     PatientAge := Py.fmt_03d (age self) ++ lit "Y";
     ImageComments :=
       lit "effctive diameter [cm]: " ++ Py.repr_div10 (patient_diameter self);
     StudyID := Py.str_of_int (studyid self);
     SeriesNumber := seriesid self;
     AcquisitionNumber := studyid self;
     InstanceNumber := InstanceNumber tmpl;
     SeriesInstanceUID := series_uid;
     StudyInstanceUID := study_uid;
     SOPInstanceUID := SOPInstanceUID tmpl;
     MediaStorageSOPInstanceUID := MediaStorageSOPInstanceUID tmpl |}.

(** The fields a slice changes in the data set it shares with the slices
    before it. *)
Definition set_instance (d : dataset) (number : Z) (sop media : str) : dataset :=
  {| PatientName := PatientName d;
     PatientID := PatientID d;
     PatientAge := PatientAge d;
     ImageComments := ImageComments d;
     StudyID := StudyID d;
     SeriesNumber := SeriesNumber d;
     AcquisitionNumber := AcquisitionNumber d;
     InstanceNumber := number;
     SeriesInstanceUID := SeriesInstanceUID d;
     StudyInstanceUID := StudyInstanceUID d;
     SOPInstanceUID := sop;
     MediaStorageSOPInstanceUID := media |}.

(** [fname.parent / f'{fname.stem}_{slice_idx:03d}{fname.suffix}'
    if nslices > 1 else fname] *)
Definition slice_fname (fname : Path) (nslices slice_idx : Z) : Path :=
  if (1 <? nslices)%Z then
    joinpath (parent fname)
      (stem fname ++ lit "_" ++ Py.fmt_03d slice_idx ++ suffix fname)
  else fname.

(** One round of [for slice_idx, array_slice in enumerate(vol)].  The state
    is the data set [ds], the list [fnames] and the files written. *)
Definition write_slice (self : CTobj) (fname : Path) (nslices : Z)
    (st : dataset * list Path * writes) (e : Z * image)
    : result (dataset * list Path * writes) :=
  let '(d, fnames, disk) := st in
  let slice_idx := fst e in
  sop <- offset_uid (SOPInstanceUID d) (slice_idx + studyid self + seriesid self) ;;
  media <- offset_uid (MediaStorageSOPInstanceUID d)
             (slice_idx + studyid self + seriesid self) ;;
  let d := set_instance d (slice_idx + 1) sop media in
  let dcm_fname := slice_fname fname nslices slice_idx in
  Ok (d, fnames ++ [dcm_fname], disk ++ [(dcm_fname, d)]).

(** [CTobj.write_to_dicom]: the object after the call, the list it returns
    and the files it wrote. *)
Definition write_to_dicom (self : CTobj) (fname : Path) (ground_truth : bool)
    : result (CTobj * list Path * writes) :=
  r <- of_option AttributeError (recon self) ;;
  let self := set_recon self (Arr3 (slices r)) in
  let nslices := Z.of_nat (length (slices r)) in
  if negb (nslices =? nsims self)%Z then Raise AssertionError else
  series_uid <- offset_uid (SeriesInstanceUID tmpl) (studyid self) ;;
  study_uid <- offset_uid (StudyInstanceUID tmpl) (studyid self) ;;
  vol <- of_option AttributeError
           (if ground_truth then groundtruth self else recon self) ;;
  '(_, fnames, disk) <-
     foldM (write_slice self fname nslices) (enumerate (slices vol))
       (header self series_uid study_uid, [], []) ;;
  Ok (self, fnames, disk).

End Persist.

(** ** The metadata extractor *)

Inductive series_kind := noise_free | ground_truth_series | simulation.

(** One row of the metadata table (the columns that only copy a header
    field are left out). *)
Record batch_record := {
  r_name : str;
  r_patient_id : str;
  r_study_id : str;
  r_series : series_kind;
  r_diameter : Q;
  r_age : Q;
  r_subgroup : subgroup;
  r_phantom : str;
  r_dose : option Z;
  r_repeat : Z;
  r_file : Path
}.

(** [dicom_meta_to_dataframe], reading the file from [disk]. *)
Definition dicom_meta_to_dataframe (disk : writes) (fname : Path)
    : result batch_record :=
  dcm <- read_file disk fname ;;
  subgroup <- pediatric_subgroup 18.2 ;;
  let age_est := subgroup_to_age subgroup in
  after_cm <- Py.item 1 (Py.split (lit "cm") (PatientName dcm)) ;;
  let phantom := Py.strip after_cm in
  after_colon <- Py.item 1 (Py.split (lit ":") (ImageComments dcm)) ;;
  diameter <- Py.float_of_str after_colon ;;
  '(series, dose, repeat) <-
     (if Py.endswith (lit "noisefree") (stem fname) then
        Ok (noise_free, None, 0%Z)
      else if Py.endswith (lit "groundtruth") (stem fname) then
        Ok (ground_truth_series, None, 0%Z)
      else
        after_dose <- Py.item 1 (Py.split (lit "dose_") (path_str fname)) ;;
        folder <- Py.item 0 (Py.split (lit "/") after_dose) ;;
        dose <- Py.int_of_str folder ;;
        repeat <-
          (if (1 <? length (Py.split (lit "_") (stem fname)))%nat then
             r <- Py.item 1 (Py.split (lit "_") (stem fname)) ;;
             Py.int_of_str r
           else Ok 0%Z) ;;
        Ok (simulation, Some dose, repeat)) ;;
  Ok {| r_name := PatientName dcm;
        r_patient_id := PatientID dcm;
        r_study_id := StudyID dcm;
        r_series := series;
        r_diameter := diameter;
        r_age := age_est;
        r_subgroup := subgroup;
        r_phantom := phantom;
        r_dose := dose;
        r_repeat := repeat;
        r_file := fname |}.

(** ** The batch orchestrator *)

(** [a.max()] of a non-empty array *)
Definition array_max (l : list Q) : option Q :=
  match l with
  | [] => None
  | x :: l' => Some (fold_left (fun m y => if Qle_bool m y then y else m) l' x)
  end.

(** [int(q)] for a float: towards zero. *)
Definition int_of_float (q : Q) : Z := Z.quot (Qnum q) (Z.pos (Qden q)).


(** [int(100*dose/dose_level.max())]: with a zero maximum the quotient is
    [nan] or infinite and [int] raises. *)
Definition rel_dose_percent (dose_level : list Q) (dose : Q) : result Z :=
  match array_max dose_level with
  | None => Raise ValueError
  | Some m =>
      if Qeq_bool m 0 then
        (if Qeq_bool dose 0 then Raise ValueError else Raise OverflowError)
      else Ok (int_of_float (100 * dose / m))
  end.

(** [fbp_kernel.replace(',','').replace('.','')] *)
Definition kernel_label (fbp_kernel : str) : str :=
  Py.replace (lit ".") [] (Py.replace (lit ",") [] fbp_kernel).

(** The scanner arguments of a batch: [down_sampling=1] is set by the
    loop, and the kernel stays at the constructor's default because
    [fbp_kernel] is an argument of [run_batch_sim] itself. *)
Definition batch_geometry (g : geometry) : geometry :=
  {| nb := nb g; na := na g; ds := ds g; sid := sid g; sdd := sdd g;
     offset_s := offset_s g; down := 1; has_bowtie := has_bowtie g;
     aec_on := aec_on g; nx := nx g; fbp_kernel := lit "hanning,2.05" |}.

Section Batch.

Variable octave : octave_call -> result sim_output.
Variable tmpl : dataset.

(** Arguments of [run_batch_sim]; [kwargs] are the constructor arguments
    the caller adds, from which the loop overrides its own. *)
Variable image_directory : Path.
Variable fbp_kernel : str.
Variable verbose : bool.
Variable kwargs : ctor_args.

Definition recon_label : str := lit "fbp".

Definition diameter_dir (phantom : str) (patient_diameter : Z) : Path :=
  joinpath (joinpath image_directory phantom)
    (lit "diameter" ++ Py.str_of_int patient_diameter ++ lit "mm").

(** The body of [for studyid, dose in enumerate(dose_level)]. *)
Definition dose_iteration (dose_level : list Q) (phantom : str)
    (patientid patient_diameter : Z) (pname : str) (e : Z * Q)
    : result (CTobj * list Path * writes) :=
  let '(studyid, dose) := e in
  rel_dose <- rel_dose_percent dose_level dose ;;
  let studyname := Py.str_of_int rel_dose ++ lit "% dose" in
  ct <- CTobj_init
          {| k_phantom := k_phantom kwargs;
             k_patient_diameter := patient_diameter;
             k_reference_diameter := k_reference_diameter kwargs;
             k_reference_fov := 340;
             k_I0 := dose;
             k_geom := batch_geometry (k_geom kwargs);
             k_add_noise := k_add_noise kwargs;
             k_fov := k_fov kwargs;
             k_nsims := k_nsims kwargs;
             k_lesion_diameter := k_lesion_diameter kwargs;
             k_age := k_age kwargs;
             k_patientname := pname;
             k_patientid := patientid;
             k_studyname := studyname;
             k_studyid := studyid;
             k_seriesid := k_seriesid kwargs |} ;;
  ct <- run octave ct verbose ;;
  let fname :=
    joinpath
      (joinpath
         (joinpath (diameter_dir phantom patient_diameter)
            (lit "dose_" ++ Py.fmt_03d rel_dose))
         (recon_label ++ lit " " ++ kernel_label fbp_kernel))
      (patientname ct ++ lit ".dcm") in
  write_to_dicom tmpl ct fname false.

(** The body of [for patientid, patient_diameter in enumerate(diameter)]:
    the dose sweep, then the noise-free and ground-truth files made from
    the object the sweep leaves in [ct]. *)
Definition diameter_iteration (dose_level : list Q) (phantom : str)
    (e : Z * Z) : result (list Path * writes) :=
  let '(patientid, patient_diameter) := e in
  let pname := Py.repr_div10 patient_diameter ++ lit " cm " ++ phantom in
  sweep <- mapM (dose_iteration dose_level phantom patientid patient_diameter
                   pname) (enumerate dose_level) ;;
  match last (map (fun r => Some (fst (fst r))) sweep) None with
  | None => Raise NameError
  | Some ct =>
      ct <- run octave (set_noise_free ct) verbose ;;
      '(ct, names1, disk1) <-
         write_to_dicom tmpl ct
           (joinpath (diameter_dir phantom patient_diameter)
              (patientname ct ++ lit "_noisefree.dcm")) false ;;
      '(ct, names2, disk2) <-
         write_to_dicom tmpl ct
           (joinpath (diameter_dir phantom patient_diameter)
              (patientname ct ++ lit "_groundtruth.dcm")) true ;;
      Ok (concat (map (fun r => snd (fst r)) sweep) ++ names1 ++ names2,
          concat (map snd sweep) ++ disk1 ++ disk2)
  end.

(** [run_batch_sim]: the metadata table and the files written. *)
Definition run_batch_sim (model : list str) (diameter : list Z)
    (full_dose : Q) (dose_level : list Q)
    : result (list batch_record * writes) :=
  let dose_level := map (Qmult full_dose) dose_level in
  per_phantom <-
    mapM (fun phantom =>
            mapM (diameter_iteration dose_level phantom) (enumerate diameter))
      model ;;
  let fnames := concat (map fst (concat per_phantom)) in
  let disk := concat (map snd (concat per_phantom)) in
  metadata <- mapM (dicom_meta_to_dataframe disk) fnames ;;
  match metadata with
  | [] => Raise ValueError
  | _ => Ok (metadata, disk)
  end.

End Batch.

(** A stand-in for the Octave simulation in the examples: [nsims] blank
    slices, a two-dimensional sinogram and ground truth. *)
Definition blank : image := [[0%Z]].

Definition blank_sim (c : octave_call) : result sim_output :=
  Ok {| out_recon := Arr3 (repeat blank (Z.to_nat (oc_nsims c)));
        out_sinogram_noiseless := Arr2 blank;
        out_ground_truth := Arr2 blank |}.

(** Sum of the slice indices up to [i]: [i * (i + 1) / 2]. *)
Fixpoint tri (i : nat) : Z :=
  match i with
  | O => 0
  | S j => tri j + Z.of_nat i
  end.

(** The header fields every slice of one call shares. *)
Definition same_header (d d' : dataset) : Prop :=
  PatientName d' = PatientName d /\
  PatientID d' = PatientID d /\
  PatientAge d' = PatientAge d /\
  ImageComments d' = ImageComments d /\
  StudyID d' = StudyID d /\
  SeriesNumber d' = SeriesNumber d /\
  AcquisitionNumber d' = AcquisitionNumber d /\
  SeriesInstanceUID d' = SeriesInstanceUID d /\
  StudyInstanceUID d' = StudyInstanceUID d.

(** A UID whose final segment [int] accepts, and a template all of whose
    UIDs are such. *)
Definition numbered (uid : str) : Prop :=
  exists b, Py.int_of_str (final_segment uid) = Ok b.

Definition template_ok (tmpl : dataset) : Prop :=
  numbered (SeriesInstanceUID tmpl) /\ numbered (StudyInstanceUID tmpl) /\
  numbered (SOPInstanceUID tmpl) /\ numbered (MediaStorageSOPInstanceUID tmpl).

(** The data set a slice starts from: the one written for the slice
    before it, or [d] for the first slice. *)
Definition prev_ds (d : dataset) (disk : writes) (i : nat) : dataset :=
  match i with
  | O => d
  | S j => nth j (map snd disk) d
  end.

(** Constructor arguments of the examples: the defaults but for the
    diameter, the identifiers and the number of repeats. *)
Definition example_args (d study series n : Z) : ctor_args :=
  {| k_phantom := k_phantom default_args;
     k_patient_diameter := d;
     k_reference_diameter := k_reference_diameter default_args;
     k_reference_fov := k_reference_fov default_args;
     k_I0 := k_I0 default_args;
     k_geom := k_geom default_args;
     k_add_noise := k_add_noise default_args;
     k_fov := k_fov default_args;
     k_nsims := n;
     k_lesion_diameter := k_lesion_diameter default_args;
     k_age := k_age default_args;
     k_patientname := k_patientname default_args;
     k_patientid := k_patientid default_args;
     k_studyname := k_studyname default_args;
     k_studyid := study;
     k_seriesid := series |}.

(** [CTobj(...).run()] with the stand-in simulation. *)
Definition scanned (k : ctor_args) : result CTobj :=
  ct <- CTobj_init k ;; run blank_sim ct true.

(** Phantom names the extractor reads back: a plain file name without
    [_], without [cm], without surrounding whitespace, and not ending in
    [noisefree] or [groundtruth].  Every casing of a supported kind and
    every alias is such a name. *)
Definition safe_name (p : str) : bool :=
  negb (Py.eqb p []) && negb (Py.eqb p (lit ".")) &&
  negb (existsb (Ascii.eqb "/") p) && negb (existsb (Ascii.eqb "_") p) &&
  negb (Py.contains (lit "cm") p) && Py.eqb (Py.strip p) p &&
  negb (Py.endswith (lit "noisefree") p) &&
  negb (Py.endswith (lit "groundtruth") p).

(** [f'{patient_diameter/10} cm {phantom}'] *)
Definition patient_name (d : Z) (phantom : str) : str :=
  Py.repr_div10 d ++ lit " cm " ++ phantom.

(** [f"effctive diameter [cm]: {self.patient_diameter/10}"] *)
Definition comment (d : Z) : str :=
  lit "effctive diameter [cm]: " ++ Py.repr_div10 d.

(** The folder of the dose-sweep files of one combination. *)
Definition sweep_dir (root : Path) (fbp_kernel phantom : str) (d pct : Z) : Path :=
  joinpath
    (joinpath (diameter_dir root phantom d) (lit "dose_" ++ Py.fmt_03d pct))
    (recon_label ++ lit " " ++ kernel_label fbp_kernel).

(** A file of the batch for one phantom and diameter: it lies below their
    folder and carries their name and comment. *)
Definition batch_write (root : Path) (phantom : str) (d : Z)
    (x : Path * dataset) : Prop :=
  (exists leaf, fst x = diameter_dir root phantom d ++ leaf) /\
  PatientName (snd x) = patient_name d phantom /\
  ImageComments (snd x) = comment d.

(** The suffix of the stem of slice [i] among [n] slices. *)
Definition slice_suffix (n i : Z) : str :=
  if (1 <? n)%Z then lit "_" ++ Py.fmt_03d i else [].

(** All characters, the characters [upper] maps to [u], and the texts
    [upper] maps to [s]. *)
Definition all_ascii : list ascii := map ascii_of_nat (seq 0 256).

Definition upper_preimage (u : ascii) : list ascii :=
  filter (fun c => Ascii.eqb (Py.upper_char c) u) all_ascii.

Fixpoint casings (s : str) : list str :=
  match s with
  | [] => [[]]
  | u :: s' => flat_map (fun c => map (cons c) (casings s')) (upper_preimage u)
  end.

(** The age groups in order of age. *)
Definition rank (g : subgroup) : Z :=
  match g with
  | newborn => 0
  | infant => 1
  | child => 2
  | adolescent => 3
  | adult => 4
  end.



(** * Properties *)

(** ** Results *)

Lemma bind_Ok {A B} (m : result A) (k : A -> result B) (b : B) :
  bind m k = Ok b -> exists a, m = Ok a /\ k a = Ok b.
Proof. destruct m as [a|e]; simpl; intros H; [eauto | discriminate]. Qed.

Lemma mapM_Ok {A B} (f : A -> result B) (l : list A) (rs : list B) :
  mapM f l = Ok rs -> Forall2 (fun x r => f x = Ok r) l rs.
Proof.
  revert rs; induction l as [|x l IH]; simpl; intros rs H.
  - injection H as <-. constructor.
  - apply bind_Ok in H as (y & Hy & H).
    apply bind_Ok in H as (ys & Hys & H).
    injection H as <-. constructor; auto.
Qed.

Lemma Forall2_In_l {A B} (P : A -> B -> Prop) l rs x :
  Forall2 P l rs -> In x l -> exists r, In r rs /\ P x r.
Proof.
  induction 1 as [|a b l rs Hab _ IH]; simpl; [tauto|].
  intros [->|Hin]; [eauto|]. destruct (IH Hin) as (r & ? & ?); eauto.
Qed.

Lemma Forall2_In_r {A B} (P : A -> B -> Prop) l rs r :
  Forall2 P l rs -> In r rs -> exists x, In x l /\ P x r.
Proof.
  induction 1 as [|a b l rs Hab _ IH]; simpl; [tauto|].
  intros [->|Hin]; [eauto|]. destruct (IH Hin) as (x & ? & ?); eauto.
Qed.

Lemma enumerate_from_In {A} (l : list A) i k x :
  In (k, x) (enumerate_from i l) -> In x l.
Proof.
  revert i; induction l as [|a l IH]; simpl; intros i; [tauto|].
  intros [H|H]; [injection H; auto | eauto].
Qed.

Lemma In_enumerate_from {A} (l : list A) i x :
  In x l -> exists k, In (k, x) (enumerate_from i l).
Proof.
  revert i; induction l as [|a l IH]; simpl; intros i; [tauto|].
  intros [->|H]; [eauto|]. destruct (IH (i + 1)%Z H) as (k & ?); eauto.
Qed.

(** ** Strings *)

Module PyFacts.
Import Py.

#[local] Arguments partition : simpl never.

Lemma strip_prefix_app p r : strip_prefix p (p ++ r) = Some r.
Proof.
  induction p as [|a p IH]; simpl; [reflexivity|].
  now rewrite Ascii.eqb_refl.
Qed.

Lemma strip_prefix_Some p s r : strip_prefix p s = Some r -> s = p ++ r.
Proof.
  revert s; induction p as [|a p IH]; simpl; intros s H.
  - now injection H.
  - destruct s as [|b s]; [discriminate|].
    destruct (Ascii.eqb_spec a b) as [->|]; [|discriminate].
    f_equal; auto.
Qed.

Lemma strip_prefix_nil s : strip_prefix [] s = Some s.
Proof. now destruct s. Qed.

Lemma partition_unfold sep s :
  partition sep s =
  match strip_prefix sep s with
  | Some r => Some ([], r)
  | None =>
      match s with
      | [] => None
      | c :: s' =>
          match partition sep s' with
          | Some (a, b) => Some (c :: a, b)
          | None => None
          end
      end
  end.
Proof. destruct s; reflexivity. Qed.

Lemma partition_Some sep s a b :
  partition sep s = Some (a, b) -> s = a ++ sep ++ b.
Proof.
  revert a b; induction s as [|c s IH]; intros a b; rewrite partition_unfold.
  - destruct (strip_prefix sep []) eqn:E; [|discriminate].
    intros H; injection H as <- <-. now apply strip_prefix_Some in E.
  - destruct (strip_prefix sep (c :: s)) eqn:E.
    + intros H; injection H as <- <-. now apply strip_prefix_Some in E.
    + destruct (partition sep s) as [[a' b']|]; [|discriminate].
      intros H; injection H as <- <-. simpl. f_equal. now apply IH.
Qed.

Lemma partition_here sep b : partition sep (sep ++ b) = Some ([], b).
Proof. now rewrite partition_unfold, strip_prefix_app. Qed.

Lemma partition_complete sep a b : partition sep (a ++ sep ++ b) <> None.
Proof.
  induction a as [|c a IH].
  - simpl app. now rewrite partition_here.
  - change ((c :: a) ++ sep ++ b) with (c :: (a ++ sep ++ b)).
    rewrite partition_unfold.
    destruct (strip_prefix sep (c :: a ++ sep ++ b)); [discriminate|].
    destruct (partition sep (a ++ sep ++ b)) as [[? ?]|]; [discriminate|].
    contradiction.
Qed.

Lemma partition_None sep s a b : partition sep s = None -> s <> a ++ sep ++ b.
Proof. intros H ->. now apply (partition_complete sep a b). Qed.

(** The first character of the separator does not occur in [x]: the search
    starts after [x]. *)
Lemma partition_skip c sep x y :
  ~ In c x ->
  partition (c :: sep) (x ++ y) =
  match partition (c :: sep) y with
  | Some (a, b) => Some (x ++ a, b)
  | None => None
  end.
Proof.
  induction x as [|d x IH]; intros Hx.
  - simpl app. now destruct (partition (c :: sep) y) as [[? ?]|].
  - change ((d :: x) ++ y) with (d :: (x ++ y)).
    rewrite (partition_unfold (c :: sep) (d :: x ++ y)). cbn [strip_prefix].
    destruct (Ascii.eqb_spec c d) as [->|_]; [exfalso; apply Hx; now left|].
    rewrite IH by (intros ?; apply Hx; now right).
    now destruct (partition (c :: sep) y) as [[? ?]|].
Qed.

Lemma partition_absent c sep x : ~ In c x -> partition (c :: sep) x = None.
Proof.
  intros Hx. rewrite <- (app_nil_r x), partition_skip by assumption.
  reflexivity.
Qed.

Lemma partition_char c x y :
  ~ In c x -> partition [c] (x ++ c :: y) = Some (x, y).
Proof.
  intros Hx. rewrite partition_skip by assumption.
  change (c :: y) with ([c] ++ y). rewrite partition_here.
  now rewrite app_nil_r.
Qed.

Lemma partition_shorter sep s a b :
  sep <> [] -> partition sep s = Some (a, b) -> (length b < length s)%nat.
Proof.
  intros Hsep H. apply partition_Some in H. subst s.
  rewrite !length_app. destruct sep; [contradiction|]. simpl. lia.
Qed.

(** *** [split] *)

Lemma split_fuel_enough sep : sep <> [] -> forall n m s,
  (length s <= n)%nat -> (length s <= m)%nat ->
  split_fuel n sep s = split_fuel m sep s.
Proof.
  intros Hsep. induction n as [|n IH]; intros m s Hn Hm.
  - destruct s; [|simpl in Hn; lia].
    destruct m; simpl; [reflexivity|].
    destruct (partition sep []) as [[a b]|] eqn:E; [|reflexivity].
    apply partition_shorter in E; [simpl in E; lia | assumption].
  - destruct m as [|m].
    + destruct s; [|simpl in Hm; lia]. simpl.
      destruct (partition sep []) as [[a b]|] eqn:E; [|reflexivity].
      apply partition_shorter in E; [simpl in E; lia | assumption].
    + simpl. destruct (partition sep s) as [[a b]|] eqn:E; [|reflexivity].
      f_equal. apply partition_shorter in E; [|assumption].
      apply IH; lia.
Qed.

Lemma split_eq sep s : sep <> [] ->
  split sep s =
  match partition sep s with
  | None => [s]
  | Some (a, b) => a :: split sep b
  end.
Proof.
  intros Hsep. unfold split. destruct s as [|c s].
  - simpl. destruct (partition sep []) as [[a b]|] eqn:E; [|reflexivity].
    apply partition_shorter in E; [simpl in E; lia | assumption].
  - cbn [length split_fuel].
    destruct (partition sep (c :: s)) as [[a b]|] eqn:E; [|reflexivity].
    f_equal. apply partition_shorter in E; [|assumption]. simpl in E.
    apply split_fuel_enough; [assumption| lia | lia].
Qed.

Lemma split_absent c sep s : ~ In c s -> split (c :: sep) s = [s].
Proof.
  intros H. rewrite split_eq by discriminate. now rewrite partition_absent.
Qed.

Lemma split_char c x y :
  ~ In c x -> split [c] (x ++ c :: y) = x :: split [c] y.
Proof.
  intros H. rewrite split_eq by discriminate. now rewrite partition_char.
Qed.

Lemma split_nonempty sep s : split sep s <> [].
Proof. unfold split. destruct (length s); simpl; [discriminate|].
  destruct (partition sep s) as [[? ?]|]; discriminate.
Qed.

(** *** [replace] *)

Lemma replace_fuel_enough old new : old <> [] -> forall n m s,
  (length s <= n)%nat -> (length s <= m)%nat ->
  replace_fuel n old new s = replace_fuel m old new s.
Proof.
  intros Hold. induction n as [|n IH]; intros m s Hn Hm.
  - destruct s; [|simpl in Hn; lia].
    destruct m; cbn [replace_fuel]; [reflexivity|].
    destruct (partition old []) as [[a b]|] eqn:E; [|reflexivity].
    apply partition_shorter in E; [simpl in E; lia | assumption].
  - destruct m as [|m].
    + destruct s; [|simpl in Hm; lia]. cbn [replace_fuel].
      destruct (partition old []) as [[a b]|] eqn:E; [|reflexivity].
      apply partition_shorter in E; [simpl in E; lia | assumption].
    + cbn [replace_fuel].
      destruct (partition old s) as [[a b]|] eqn:E; [|reflexivity].
      do 2 f_equal. apply partition_shorter in E; [|assumption].
      apply IH; lia.
Qed.

Lemma replace_eq old new s : old <> [] ->
  replace old new s =
  match partition old s with
  | None => s
  | Some (a, b) => a ++ new ++ replace old new b
  end.
Proof.
  intros Hold. unfold replace. destruct old as [|o old]; [contradiction|].
  destruct s as [|c s].
  - cbn [length replace_fuel].
    destruct (partition (o :: old) []) as [[a b]|] eqn:E; [|reflexivity].
    apply partition_shorter in E; [simpl in E; lia | assumption].
  - cbn [length replace_fuel].
    destruct (partition (o :: old) (c :: s)) as [[a b]|] eqn:E; [|reflexivity].
    do 2 f_equal. apply partition_shorter in E; [|assumption]. simpl in E.
    apply replace_fuel_enough; [assumption| lia | lia].
Qed.

Lemma replace_nil old new : old <> [] -> replace old new [] = [].
Proof. intros H. destruct old; [contradiction|]. reflexivity. Qed.

Lemma replace_self old new : old <> [] -> replace old new old = new.
Proof.
  intros H. rewrite replace_eq by assumption.
  rewrite <- (app_nil_r old) at 2. rewrite partition_here.
  rewrite replace_nil by assumption. now rewrite app_nil_r.
Qed.

(** Replacing a text that ends a string after the character [c], which it
    does not contain, rewrites that last occurrence whatever happens
    before it. *)
Lemma replace_tail c old new : old <> [] -> ~ In c old -> forall n pre,
  (length pre <= n)%nat ->
  exists x, replace old new (pre ++ c :: old) = x ++ c :: new.
Proof.
  intros Hold Hc. induction n as [|n IH]; intros pre Hlen.
  - destruct pre; [|simpl in Hlen; lia]. simpl app.
    rewrite replace_eq by assumption.
    replace (c :: old) with ([c] ++ old ++ []) by now rewrite app_nil_r.
    destruct old as [|o old]; [contradiction|].
    rewrite partition_skip, partition_here.
    + rewrite replace_nil by assumption. exists []. simpl.
      now rewrite app_nil_r.
    + simpl. intros [->|[]]. apply Hc. now left.
  - rewrite replace_eq by assumption.
    destruct (partition old (pre ++ c :: old)) as [[a b]|] eqn:E.
    2:{ exfalso. apply (partition_None old _ (pre ++ [c]) []) in E.
        apply E. now rewrite <- app_assoc, app_nil_r. }
    apply partition_Some in E.
    apply app_eq_app in E as [l [[Hpre Hl]|[Ha Hl]]].
    + (* the occurrence found ends inside [pre] *)
      symmetry in Hl. apply app_eq_app in Hl as [l2 [[Hl2 Hb]|[Hold2 Hb]]].
      * subst b l. destruct (IH l2) as [x Hx].
        { subst pre. rewrite !length_app in Hlen.
          destruct old; [contradiction|]. simpl in Hlen. lia. }
        rewrite Hx. exists (a ++ new ++ x). now rewrite <- !app_assoc.
      * destruct l2 as [|d l2].
        -- rewrite app_nil_r in Hold2. subst l. simpl in Hb. subst b.
           destruct (IH []) as [x Hx]; [simpl; lia|].
           simpl app in Hx. rewrite Hx.
           exists (a ++ new ++ x). now rewrite <- !app_assoc.
        -- exfalso. injection Hb as Hd _. subst d. apply Hc. rewrite Hold2.
           apply in_or_app. right. now left.
    + (* the occurrence found starts after [pre] *)
      destruct l as [|d l].
      * exfalso. simpl in Hl. destruct old as [|o old]; [contradiction|].
        injection Hl as Ho _. apply Hc. subst. now left.
      * injection Hl as <- Hl.
        assert (length old = length l + length old + length b)%nat as Hn
          by now rewrite Hl at 1; rewrite !length_app; lia.
        destruct l; [|simpl in Hn; lia]. destruct b; [|simpl in Hn; lia].
        subst a. rewrite replace_nil by assumption.
        exists pre. now rewrite app_nil_r, <- app_assoc.
Qed.

(** *** The last piece of a split by one character *)

Lemma partition_char_None c s : partition [c] s = None -> ~ In c s.
Proof.
  intros H Hin. apply in_split in Hin as (l1 & l2 & ->).
  now apply (partition_complete [c] l1 l2).
Qed.

Lemma last_item_cons a l : l <> [] -> last_item (a :: l) = last_item l.
Proof. unfold last_item. destruct l; [contradiction | reflexivity]. Qed.

Lemma last_split_app c x y :
  last_item (split [c] (x ++ c :: y)) = last_item (split [c] y).
Proof.
  induction x as [|d x IH].
  - change ([] ++ c :: y) with ([] ++ c :: y). rewrite split_char by (now simpl).
    apply last_item_cons, split_nonempty.
  - change ((d :: x) ++ c :: y) with (d :: (x ++ c :: y)).
    rewrite <- IH.
    rewrite (split_eq [c] (d :: x ++ c :: y)) by discriminate.
    rewrite (split_eq [c] (x ++ c :: y)) by discriminate.
    rewrite (partition_unfold [c] (d :: x ++ c :: y)). cbn [strip_prefix].
    destruct (Ascii.eqb_spec c d) as [->|Hd].
    + destruct (partition [d] (x ++ d :: y)) as [[a b]|] eqn:E.
      * rewrite last_item_cons.
        -- rewrite (split_eq [d] (x ++ d :: y)) by discriminate. now rewrite E.
        -- apply split_nonempty.
      * exfalso. now apply (partition_complete [d] x y).
    + destruct (partition [c] (x ++ c :: y)) as [[a b]|] eqn:E.
      * rewrite !last_item_cons by apply split_nonempty. reflexivity.
      * exfalso. now apply (partition_complete [c] x y).
Qed.

Lemma last_split_tail c x y :
  ~ In c y -> last_item (split [c] (x ++ c :: y)) = y.
Proof. intros H. rewrite last_split_app, split_absent by assumption. reflexivity. Qed.

(** The last piece ends the string and is preceded by the separator. *)
Lemma last_split_shape c : forall n s, (length s <= n)%nat ->
  ~ In c (last_item (split [c] s)) /\
  (s = last_item (split [c] s) \/
   exists pre, s = pre ++ c :: last_item (split [c] s)).
Proof.
  induction n as [|n IH]; intros s Hlen.
  - destruct s; [|simpl in Hlen; lia]. split; [now simpl | now left].
  - rewrite split_eq by discriminate.
    destruct (partition [c] s) as [[a b]|] eqn:E.
    + pose proof (partition_shorter [c] s a b ltac:(discriminate) E) as Hb.
      apply partition_Some in E. subst s.
      rewrite last_item_cons by apply split_nonempty.
      destruct (IH b ltac:(lia)) as [Hno [Hb'|[pre Hb']]]; split; auto.
      * right. exists a. now rewrite <- Hb'.
      * right. exists (a ++ c :: pre). rewrite Hb' at 1.
        now rewrite <- app_assoc.
    + split; [|now left]. now apply partition_char_None.
Qed.
(** *** Numbers as text *)

Lemma digit_num_char c : digit c -> num_char c.
Proof. intros H. now right. Qed.

Lemma uint_text_digits u :
  Forall digit (list_ascii_of_string (NilEmpty.string_of_uint u)).
Proof.
  induction u; simpl; constructor; auto; unfold digit; simpl; tauto.
Qed.

(** The digits of a non-negative integer. *)
Lemma str_of_int_nonneg z : (0 <= z)%Z ->
  exists u, u <> Decimal.Nil /\ Z.of_uint u = z /\
            str_of_int z = list_ascii_of_string (NilEmpty.string_of_uint u).
Proof.
  intros Hz. destruct z as [|p|p]; [| |lia].
  - exists (Decimal.D0 Decimal.Nil). repeat split. discriminate.
  - exists (Pos.to_uint p). repeat split.
    + apply Unsigned.to_uint_nonnil.
    + unfold Z.of_uint. now rewrite DecimalPos.Unsigned.of_to.
    + unfold str_of_int. simpl. pose proof (Unsigned.to_uint_nonnil p).
      now destruct (Pos.to_uint p).
Qed.

Lemma str_of_int_neg z : (z < 0)%Z ->
  str_of_int z = "-"%char :: str_of_int (- z).
Proof.
  destruct z as [|p|p]; try lia. intros _. reflexivity.
Qed.

Lemma uint_text_nonempty u : u <> Decimal.Nil ->
  list_ascii_of_string (NilEmpty.string_of_uint u) <> [].
Proof. destruct u; simpl; congruence. Qed.

Lemma str_of_int_digits z : (0 <= z)%Z -> Forall digit (str_of_int z).
Proof.
  intros Hz. destruct (str_of_int_nonneg z Hz) as (u & _ & _ & ->).
  apply uint_text_digits.
Qed.

Lemma str_of_int_chars z : Forall num_char (str_of_int z).
Proof.
  destruct (Z.lt_ge_cases z 0) as [Hz|Hz].
  - rewrite str_of_int_neg by assumption. constructor; [now left|].
    eapply Forall_impl; [apply digit_num_char|].
    apply str_of_int_digits. lia.
  - eapply Forall_impl; [apply digit_num_char|]. now apply str_of_int_digits.
Qed.

Lemma str_of_int_nonempty z : str_of_int z <> [].
Proof.
  destruct (Z.lt_ge_cases z 0) as [Hz|Hz].
  - rewrite str_of_int_neg by assumption. discriminate.
  - destruct (str_of_int_nonneg z Hz) as (u & Hu & _ & ->).
    now apply uint_text_nonempty.
Qed.

(** A character that is not part of a number does not occur in its text. *)
Lemma not_in_num c s : Forall num_char s -> ~ num_char c -> ~ In c s.
Proof. intros H Hc Hin. rewrite Forall_forall in H. auto. Qed.

Lemma num_char_not_space c : num_char c -> is_space c = false.
Proof.
  unfold num_char. simpl.
  intros H. repeat (destruct H as [<-|H]; [reflexivity|]). contradiction.
Qed.

(** *** [strip] *)

Lemma lstrip_id s : (forall c, In c s -> is_space c = false) -> lstrip s = s.
Proof.
  destruct s as [|c s]; [reflexivity|]. intros H. simpl.
  now rewrite (H c) by now left.
Qed.

Lemma strip_id s : (forall c, In c s -> is_space c = false) -> strip s = s.
Proof.
  intros H. unfold strip, rstrip. rewrite (lstrip_id s) by assumption.
  rewrite lstrip_id; [apply rev_involutive|].
  intros c Hc. apply H. now apply in_rev.
Qed.

Lemma strip_num s : Forall num_char s -> strip s = s.
Proof.
  intros H. apply strip_id. intros c Hc. apply num_char_not_space.
  rewrite Forall_forall in H. auto.
Qed.


(** *** [int] and [str] *)

Lemma uint_of_text u :
  NilEmpty.uint_of_string
    (string_of_list_ascii (list_ascii_of_string (NilEmpty.string_of_uint u)))
  = Some u.
Proof. rewrite string_of_list_ascii_of_string. apply NilEmpty.usu. Qed.

Lemma to_int_proper z :
  Z.to_int z <> Decimal.Pos Decimal.Nil /\ Z.to_int z <> Decimal.Neg Decimal.Nil.
Proof.
  destruct z as [|p|p]; simpl; split; try discriminate;
    intros H; injection H; apply Unsigned.to_uint_nonnil.
Qed.

Theorem int_of_str_of_int z : int_of_str (str_of_int z) = Ok z.
Proof.
  unfold int_of_str. rewrite strip_num by apply str_of_int_chars.
  pose proof (str_of_int_chars z) as Hc.
  pose proof (str_of_int_nonempty z) as Hne.
  remember (str_of_int z) as t eqn:Ht. destruct t as [|c r]; [contradiction|].
  assert (Ascii.eqb c "+" = false) as ->.
  { apply Ascii.eqb_neq. intros ->. inversion Hc as [|? ? Hplus _]; subst.
    unfold num_char in Hplus. simpl in Hplus.
    repeat (destruct Hplus as [Hplus|Hplus]; [discriminate|]). contradiction. }
  rewrite Ht. unfold str_of_int. rewrite string_of_list_ascii_of_string.
  destruct (to_int_proper z) as [H1 H2].
  rewrite NilZero.isi by assumption. simpl. now rewrite DecimalZ.of_to.
Qed.

Lemma str_of_int_inj a b : str_of_int a = str_of_int b -> a = b.
Proof.
  intros H. pose proof (int_of_str_of_int a) as Ha. rewrite H in Ha.
  rewrite int_of_str_of_int in Ha. now injection Ha.
Qed.

(** *** Parsing padded and fractional numbers *)

Lemma digit_not_sign c : digit c -> c <> "-"%char /\ c <> "+"%char.
Proof.
  unfold digit. simpl. intros H.
  repeat (destruct H as [<-|H]; [split; discriminate|]). contradiction.
Qed.

Lemma string_of_nonempty c r : string_of_list_ascii (c :: r) <> EmptyString.
Proof. discriminate. Qed.

(** A non-empty text of digits is read as the number its digits denote. *)
Lemma int_of_digits t v :
  Forall digit t -> t <> [] ->
  NilEmpty.uint_of_string (string_of_list_ascii t) = Some v ->
  int_of_str t = Ok (Z.of_uint v).
Proof.
  intros Hd Hne Hv. unfold int_of_str.
  rewrite strip_num by (eapply Forall_impl; [apply digit_num_char|exact Hd]).
  destruct t as [|c r]; [contradiction|].
  inversion Hd as [|? ? Hc _]; subst.
  destruct (digit_not_sign c Hc) as [Hm Hp].
  apply Ascii.eqb_neq in Hp. rewrite Hp.
  cbn [string_of_list_ascii NilZero.int_of_string].
  apply Ascii.eqb_neq in Hm. rewrite Hm.
  cbn [NilZero.uint_of_string]. cbn [string_of_list_ascii] in Hv.
  now rewrite Hv.
Qed.

Lemma int_of_neg_digits t v :
  Forall digit t -> t <> [] ->
  NilEmpty.uint_of_string (string_of_list_ascii t) = Some v ->
  int_of_str ("-"%char :: t) = Ok (- Z.of_uint v)%Z.
Proof.
  intros Hd Hne Hv. unfold int_of_str.
  rewrite strip_num.
  2:{ constructor; [now left|].
      eapply Forall_impl; [apply digit_num_char|exact Hd]. }
  cbn [Ascii.eqb Bool.eqb string_of_list_ascii NilZero.int_of_string].
  destruct t as [|c r]; [contradiction|].
  cbn [NilZero.uint_of_string string_of_list_ascii].
  cbn [string_of_list_ascii] in Hv. now rewrite Hv.
Qed.

Lemma uint_of_padded k u :
  NilEmpty.uint_of_string
    (string_of_list_ascii
       (repeat "0"%char k ++ list_ascii_of_string (NilEmpty.string_of_uint u)))
  = Some (Nat.iter k Decimal.D0 u).
Proof.
  induction k as [|k IH]; [apply uint_of_text|].
  cbn [repeat app string_of_list_ascii NilEmpty.uint_of_string Nat.iter].
  now rewrite IH.
Qed.

Lemma of_uint_padded k u : Z.of_uint (Nat.iter k Decimal.D0 u) = Z.of_uint u.
Proof. induction k as [|k IH]; [reflexivity|]. exact IH. Qed.

Lemma zero_pad_digits w z : (0 <= z)%Z -> Forall digit (zero_pad w (str_of_int z)).
Proof.
  intros Hz. unfold zero_pad. apply Forall_app. split.
  - apply Forall_forall. intros c Hc. apply repeat_spec in Hc. subst.
    unfold digit. simpl. tauto.
  - now apply str_of_int_digits.
Qed.

Lemma zero_pad_nonempty w z : zero_pad w (str_of_int z) <> [].
Proof.
  unfold zero_pad. intros H. apply app_eq_nil in H as [_ H].
  now apply str_of_int_nonempty in H.
Qed.

Lemma uint_of_zero_pad w z : (0 <= z)%Z ->
  exists v, NilEmpty.uint_of_string (string_of_list_ascii (zero_pad w (str_of_int z)))
            = Some v /\ Z.of_uint v = z.
Proof.
  intros Hz. destruct (str_of_int_nonneg z Hz) as (u & _ & Hu & ->).
  unfold zero_pad. eexists. split; [apply uint_of_padded|].
  now rewrite of_uint_padded.
Qed.

Theorem int_of_fmt_03d z : int_of_str (fmt_03d z) = Ok z.
Proof.
  unfold fmt_03d. destruct (Z.ltb_spec z 0) as [Hz|Hz].
  - destruct (uint_of_zero_pad 2 (- z) ltac:(lia)) as (v & Hv & Hz').
    rewrite (int_of_neg_digits _ v);
      [f_equal; lia | apply zero_pad_digits; lia | apply zero_pad_nonempty
      | exact Hv].
  - destruct (uint_of_zero_pad 3 z Hz) as (v & Hv & Hz').
    rewrite (int_of_digits _ v);
      [now f_equal | now apply zero_pad_digits | apply zero_pad_nonempty
      | exact Hv].
Qed.







Lemma repr_div10_nonempty d : repr_div10 d <> [].
Proof.
  unfold repr_div10. intros H. apply app_eq_nil in H as [_ H].
  apply app_eq_nil in H as [_ H]. discriminate.
Qed.


(** *** Occurrences of a separator *)

Lemma contains_true sub s :
  contains sub s = true <-> exists a b, s = a ++ sub ++ b.
Proof.
  unfold contains. split.
  - destruct (partition sub s) as [[a b]|] eqn:E; [|discriminate].
    intros _. exists a, b. now apply partition_Some.
  - intros (a & b & ->).
    pose proof (partition_complete sub a b) as H.
    now destruct (partition sub (a ++ sub ++ b)).
Qed.

Lemma contains_false sub s :
  contains sub s = false <-> forall a b, s <> a ++ sub ++ b.
Proof.
  split.
  - intros H a b E. assert (contains sub s = true) by (apply contains_true; eauto).
    congruence.
  - intros H. destruct (contains sub s) eqn:E; [|reflexivity].
    apply contains_true in E as (a & b & E). now apply H in E.
Qed.

Lemma contains_false_partition sub s :
  contains sub s = false -> partition sub s = None.
Proof. unfold contains. now destruct (partition sub s). Qed.



(** A prefix test does not look beyond a character foreign to the
    prefix. *)
Lemma strip_prefix_stop p u c v r :
  ~ In c p -> strip_prefix p (u ++ c :: v) = Some r ->
  exists r', strip_prefix p u = Some r'.
Proof.
  intros Hc H. apply strip_prefix_Some in H.
  apply app_eq_app in H as [l [[Hu Hl]|[Hp Hl]]].
  - exists l. rewrite Hu. apply strip_prefix_app.
  - destruct l as [|d l].
    + rewrite app_nil_r in Hp. subst p. exists [].
      rewrite <- (app_nil_r u) at 2. apply strip_prefix_app.
    + injection Hl as <- _. exfalso. apply Hc. rewrite Hp.
      apply in_or_app. right. now left.
Qed.

Lemma contains_tail sub x a :
  contains sub (x :: a) = false -> contains sub a = false.
Proof.
  rewrite !contains_false. intros H u v ->. apply (H (x :: u) v). reflexivity.
Qed.

(** The separator first occurs right after [a ++ [c]] when [a] does not
    contain it and [c] is foreign to it. *)
Lemma partition_after c sep a b :
  sep <> [] -> ~ In c sep -> contains sep a = false ->
  partition sep (a ++ c :: sep ++ b) = Some (a ++ [c], b).
Proof.
  intros Hne Hc. induction a as [|x a IH]; intros Ha.
  - cbn [app]. rewrite partition_unfold.
    destruct (strip_prefix sep (c :: sep ++ b)) as [r|] eqn:E.
    + exfalso. destruct sep as [|s0 sep]; [contradiction|].
      cbn [strip_prefix] in E.
      destruct (Ascii.eqb_spec s0 c) as [->|]; [|discriminate].
      apply Hc. now left.
    + now rewrite partition_here.
  - change ((x :: a) ++ c :: sep ++ b) with (x :: (a ++ c :: sep ++ b)).
    rewrite partition_unfold.
    destruct (strip_prefix sep (x :: a ++ c :: sep ++ b)) as [r|] eqn:E.
    + exfalso.
      change (x :: a ++ c :: sep ++ b) with ((x :: a) ++ c :: sep ++ b) in E.
      apply strip_prefix_stop in E as [r' E]; [|assumption].
      apply strip_prefix_Some in E.
      rewrite contains_false in Ha. apply (Ha [] r'). exact E.
    + rewrite IH by (eapply contains_tail; eassumption). reflexivity.
Qed.





End PyFacts.

(** ** UID derivation *)

Module UidFacts.
Import Py PyFacts.

Lemma final_segment_eq uid :
  final_segment uid = last_item (split ["."%char] uid).
Proof. reflexivity. Qed.

Lemma final_segment_no_dot uid : ~ In "."%char (final_segment uid).
Proof.
  rewrite final_segment_eq.
  apply (last_split_shape "."%char (length uid) uid (le_n _)).
Qed.

Lemma final_segment_shape uid :
  uid = final_segment uid \/ exists pre, uid = pre ++ "."%char :: final_segment uid.
Proof.
  rewrite final_segment_eq.
  apply (last_split_shape "."%char (length uid) uid (le_n _)).
Qed.

Lemma final_segment_plain s : ~ In "."%char s -> final_segment s = s.
Proof. intros H. rewrite final_segment_eq, split_absent by assumption. reflexivity. Qed.

Lemma final_segment_tail x s :
  ~ In "."%char s -> final_segment (x ++ "."%char :: s) = s.
Proof. intros H. rewrite final_segment_eq. now apply last_split_tail. Qed.

Lemma dot_not_num : ~ num_char "."%char.
Proof.
  unfold num_char. simpl. intros H.
  repeat (destruct H as [H|H]; [discriminate|]). contradiction.
Qed.

Lemma str_of_int_no_dot z : ~ In "."%char (str_of_int z).
Proof. apply not_in_num; [apply str_of_int_chars | apply dot_not_num]. Qed.

Lemma int_of_str_nonempty s n : int_of_str s = Ok n -> s <> [].
Proof. intros H ->. discriminate. Qed.

(** One derivation step: the new UID is the old one with its final segment
    replaced, and its final segment is the text of the sum. *)
Lemma offset_uid_ok uid off n :
  int_of_str (final_segment uid) = Ok n ->
  exists uid',
    offset_uid uid off = Ok uid' /\
    uid' = replace (final_segment uid) (str_of_int (n + off)) uid /\
    final_segment uid' = str_of_int (n + off).
Proof.
  intros Hn. unfold offset_uid. rewrite Hn. simpl bind.
  eexists; split; [reflexivity|]. split; [reflexivity|].
  pose proof (int_of_str_nonempty _ _ Hn) as Hne.
  pose proof (final_segment_no_dot uid) as Hdot.
  destruct (final_segment_shape uid) as [Hs|[pre Hs]].
  - rewrite Hs at 2. rewrite replace_self by assumption.
    apply final_segment_plain, str_of_int_no_dot.
  - rewrite Hs at 2.
    destruct (replace_tail "."%char (final_segment uid) (str_of_int (n + off))
                Hne Hdot (length pre) pre (le_n _)) as [x ->].
    apply final_segment_tail, str_of_int_no_dot.
Qed.

Lemma offset_uid_final uid off n uid' :
  int_of_str (final_segment uid) = Ok n ->
  offset_uid uid off = Ok uid' ->
  final_segment uid' = str_of_int (n + off) /\
  int_of_str (final_segment uid') = Ok (n + off)%Z.
Proof.
  intros Hn H. destruct (offset_uid_ok uid off n Hn) as (u & Hu & _ & Hf).
  rewrite H in Hu. injection Hu as <-. split; [assumption|].
  rewrite Hf. apply int_of_str_of_int.
Qed.

Lemma offset_uid_inv uid off uid' :
  offset_uid uid off = Ok uid' ->
  exists n, int_of_str (final_segment uid) = Ok n.
Proof.
  unfold offset_uid. intros H. apply bind_Ok in H as (n & Hn & _). eauto.
Qed.

Lemma tri_closed i : (2 * tri i = Z.of_nat i * (Z.of_nat i + 1))%Z.
Proof.
  induction i as [|i IH]; [reflexivity|].
  cbn [tri]. rewrite Nat2Z.inj_succ. lia.
Qed.

End UidFacts.

(** ** The slice loop of [write_to_dicom] *)

Module PersistFacts.
Import Py PyFacts UidFacts.

Lemma same_header_refl d : same_header d d.
Proof. unfold same_header. tauto. Qed.

Lemma same_header_set d number sop media :
  same_header d (set_instance d number sop media).
Proof. unfold same_header. simpl. tauto. Qed.

Lemma same_header_trans d1 d2 d3 :
  same_header d1 d2 -> same_header d2 d3 -> same_header d1 d3.
Proof.
  unfold same_header. intros H1 H2.
  decompose [and] H1. decompose [and] H2. repeat split; congruence.
Qed.

Lemma nth_error_before {A} (l : list A) j w :
  nth_error l (S j) = Some w -> (j < length l)%nat.
Proof.
  intros H. assert (S j < length l)%nat; [|lia].
  apply nth_error_Some. congruence.
Qed.

Lemma last_cons_default {A} (l : list A) a d : last (a :: l) d = last l a.
Proof.
  revert a d; induction l as [|b l IH]; intros a d; [reflexivity|].
  change (last (a :: b :: l) d) with (last (b :: l) d).
  now rewrite !IH.
Qed.

(** What the loop over the slices writes, from any state: one file per
    slice, named by [slice_fname], sharing the header, with UIDs whose
    final segments accumulate the offsets. *)
Lemma write_loop self fname n : forall vol k d fnames disk out,
  foldM (write_slice self fname n) (enumerate_from k vol) (d, fnames, disk)
    = Ok out ->
  exists ws,
    out = (last (map snd ws) d, fnames ++ map fst ws, disk ++ ws) /\
    length ws = length vol /\
    forall i w, nth_error ws i = Some w ->
      fst w = slice_fname fname n (k + Z.of_nat i) /\
      same_header d (snd w) /\
      InstanceNumber (snd w) = (k + Z.of_nat i + 1)%Z /\
      (forall b, int_of_str (final_segment (SOPInstanceUID d)) = Ok b ->
         final_segment (SOPInstanceUID (snd w)) =
         str_of_int (b + (Z.of_nat i + 1) * (k + studyid self + seriesid self)
                     + tri i)) /\
      (forall b, int_of_str (final_segment (MediaStorageSOPInstanceUID d)) = Ok b ->
         final_segment (MediaStorageSOPInstanceUID (snd w)) =
         str_of_int (b + (Z.of_nat i + 1) * (k + studyid self + seriesid self)
                     + tri i)) /\
      offset_uid (SOPInstanceUID (prev_ds d ws i))
        (k + Z.of_nat i + studyid self + seriesid self)
        = Ok (SOPInstanceUID (snd w)) /\
      offset_uid (MediaStorageSOPInstanceUID (prev_ds d ws i))
        (k + Z.of_nat i + studyid self + seriesid self)
        = Ok (MediaStorageSOPInstanceUID (snd w)).
Proof.
  induction vol as [|x vol IH]; intros k d fnames disk out H.
  - simpl in H. injection H as <-. exists []. simpl.
    rewrite !app_nil_r. split; [reflexivity|]. split; [reflexivity|].
    intros [|i] w Hw; discriminate.
  - cbn [enumerate_from foldM] in H.
    apply bind_Ok in H as (st & Hst & H).
    unfold write_slice in Hst. cbn [fst] in Hst.
    apply bind_Ok in Hst as (sop & Hsop & Hst).
    apply bind_Ok in Hst as (media & Hmedia & Hst).
    injection Hst as <-.
    apply IH in H as (ws & -> & Hlen & Hws).
    exists ((slice_fname fname n k, set_instance d (k + 1) sop media) :: ws).
    split; [|split].
    + cbn [map fst snd]. rewrite <- !app_assoc. simpl app.
      now rewrite last_cons_default.
    + simpl. now rewrite Hlen.
    + intros [|i] w Hw.
      * injection Hw as <-. cbn [fst snd prev_ds]. rewrite Z.add_0_r.
        split; [reflexivity|]. split; [apply same_header_set|].
        split; [reflexivity|]. cbn [tri]. change (Z.of_nat 0) with 0%Z.
        cbn [set_instance SOPInstanceUID MediaStorageSOPInstanceUID].
        split; [|split; [|split; assumption]]; intros b Hb.
        -- destruct (offset_uid_final _ _ _ _ Hb Hsop) as [Hf _].
           rewrite Hf. f_equal. ring.
        -- destruct (offset_uid_final _ _ _ _ Hb Hmedia) as [Hf _].
           rewrite Hf. f_equal. ring.
      * cbn [nth_error] in Hw.
        destruct (Hws i w Hw) as (Hp & Hh & Hi & Hs & Hm & Hc & Hcm).
        rewrite Nat2Z.inj_succ.
        split; [rewrite Hp; f_equal; lia|].
        split; [eapply same_header_trans; [apply same_header_set|exact Hh]|].
        split; [rewrite Hi; lia|]. cbn [tri]. rewrite Nat2Z.inj_succ.
        cbn [set_instance SOPInstanceUID MediaStorageSOPInstanceUID] in Hs, Hm.
        assert (prev_ds d
                  ((slice_fname fname n k, set_instance d (k + 1) sop media) :: ws)
                  (S i)
                = prev_ds (set_instance d (k + 1) sop media) ws i) as Hprev.
        { cbn [prev_ds map snd]. destruct i as [|j]; [reflexivity|].
          cbn [nth]. apply nth_indep. rewrite length_map.
          eapply nth_error_before, Hw. }
        rewrite Hprev.
        replace (k + Z.succ (Z.of_nat i) + studyid self + seriesid self)%Z
          with (k + 1 + Z.of_nat i + studyid self + seriesid self)%Z by lia.
        split; [|split; [|split; assumption]]; intros b Hb.
        -- destruct (offset_uid_final _ _ _ _ Hb Hsop) as [_ Hb1].
           rewrite (Hs _ Hb1). f_equal. ring.
        -- destruct (offset_uid_final _ _ _ _ Hb Hmedia) as [_ Hb1].
           rewrite (Hm _ Hb1). f_equal. ring.
Qed.

(** The loop cannot fail once the UIDs it starts from end in a number. *)
Lemma write_loop_total self fname n : forall vol k d fnames disk,
  (exists b, int_of_str (final_segment (SOPInstanceUID d)) = Ok b) ->
  (exists b, int_of_str (final_segment (MediaStorageSOPInstanceUID d)) = Ok b) ->
  exists out,
    foldM (write_slice self fname n) (enumerate_from k vol) (d, fnames, disk)
      = Ok out.
Proof.
  induction vol as [|x vol IH]; intros k d fnames disk [b Hb] [m Hm].
  - simpl. eauto.
  - cbn [enumerate_from foldM]. unfold write_slice at 1. cbn [fst].
    destruct (offset_uid_ok (SOPInstanceUID d)
                (k + studyid self + seriesid self) b Hb) as (sop & Hsop & _ & Hf).
    destruct (offset_uid_ok (MediaStorageSOPInstanceUID d)
                (k + studyid self + seriesid self) m Hm) as (med & Hmed & _ & Hg).
    rewrite Hsop, Hmed. cbn [bind].
    apply IH; cbn [set_instance SOPInstanceUID MediaStorageSOPInstanceUID].
    + rewrite Hf. eexists. apply int_of_str_of_int.
    + rewrite Hg. eexists. apply int_of_str_of_int.
Qed.

(** [write_to_dicom] returned: what it wrote. *)
Lemma write_to_dicom_inv tmpl self fname gt self' fnames disk :
  write_to_dicom tmpl self fname gt = Ok (self', fnames, disk) ->
  exists r vol series_uid study_uid,
    recon self = Some r /\
    Z.of_nat (length (slices r)) = nsims self /\
    (if gt then groundtruth self else Some (Arr3 (slices r))) = Some vol /\
    offset_uid (SeriesInstanceUID tmpl) (studyid self) = Ok series_uid /\
    offset_uid (StudyInstanceUID tmpl) (studyid self) = Ok study_uid /\
    self' = set_recon self (Arr3 (slices r)) /\
    fnames = map fst disk /\
    length disk = length (slices vol) /\
    forall i w, nth_error disk i = Some w ->
      fst w = slice_fname fname (nsims self) (Z.of_nat i) /\
      same_header (header tmpl self series_uid study_uid) (snd w) /\
      InstanceNumber (snd w) = (Z.of_nat i + 1)%Z /\
      (forall b, int_of_str (final_segment (SOPInstanceUID tmpl)) = Ok b ->
         final_segment (SOPInstanceUID (snd w)) =
         str_of_int (b + (Z.of_nat i + 1) * (studyid self + seriesid self)
                     + tri i)) /\
      (forall b, int_of_str (final_segment (MediaStorageSOPInstanceUID tmpl)) = Ok b ->
         final_segment (MediaStorageSOPInstanceUID (snd w)) =
         str_of_int (b + (Z.of_nat i + 1) * (studyid self + seriesid self)
                     + tri i)) /\
      offset_uid (SOPInstanceUID (prev_ds tmpl disk i))
        (Z.of_nat i + studyid self + seriesid self)
        = Ok (SOPInstanceUID (snd w)) /\
      offset_uid (MediaStorageSOPInstanceUID (prev_ds tmpl disk i))
        (Z.of_nat i + studyid self + seriesid self)
        = Ok (MediaStorageSOPInstanceUID (snd w)).
Proof.
  unfold write_to_dicom. intros H.
  apply bind_Ok in H as (r & Hr & H).
  destruct (recon self) as [r'|] eqn:Hrecon; [|discriminate].
  injection Hr as ->.
  cbn [set_recon nsims studyid seriesid groundtruth recon] in H.
  destruct (Z.eqb_spec (Z.of_nat (length (slices r))) (nsims self)) as [Hn|];
    [|discriminate].
  cbn [negb] in H.
  apply bind_Ok in H as (series_uid & Hseries & H).
  apply bind_Ok in H as (study_uid & Hstudy & H).
  apply bind_Ok in H as (vol & Hvol & H).
  apply bind_Ok in H as ([[dl names] dk] & Hloop & H).
  injection H as <- <- <-.
  unfold enumerate in Hloop. apply write_loop in Hloop as (ws & Hout & Hlen & Hws).
  injection Hout as _ -> ->. simpl app.
  exists r, vol, series_uid, study_uid.
  split; [reflexivity|]. split; [assumption|].
  split.
  { destruct gt.
    - destruct (groundtruth self); [|discriminate].
      now injection Hvol as <-.
    - now injection Hvol as <-. }
  split; [assumption|]. split; [assumption|]. split; [reflexivity|].
  split; [reflexivity|]. split; [assumption|].
  intros i w Hw. destruct (Hws i w Hw) as (Hp & Hh & Hi & Hs & Hm & Hc & Hcm).
  rewrite Hn in Hp. rewrite Z.add_0_l in Hp, Hi, Hc, Hcm.
  cbn [set_recon studyid seriesid header SOPInstanceUID
       MediaStorageSOPInstanceUID] in Hs, Hm.
  cbn [set_recon studyid seriesid] in Hc, Hcm.
  split; [assumption|]. split; [exact Hh|]. split; [assumption|].
  assert (forall d, SOPInstanceUID d = SOPInstanceUID tmpl ->
            MediaStorageSOPInstanceUID d = MediaStorageSOPInstanceUID tmpl ->
            SOPInstanceUID (prev_ds d ws i) = SOPInstanceUID (prev_ds tmpl ws i) /\
            MediaStorageSOPInstanceUID (prev_ds d ws i)
            = MediaStorageSOPInstanceUID (prev_ds tmpl ws i)) as Hprev.
  { intros d H1 H2. destruct i as [|j]; [now split|]. cbn [prev_ds].
    rewrite (nth_indep (map snd ws) d tmpl); [now split|].
    rewrite length_map. eapply nth_error_before, Hw. }
  destruct (Hprev (header tmpl (set_recon self (Arr3 (slices r)))
                      series_uid study_uid) eq_refl eq_refl) as [E1 E2].
  rewrite E1 in Hc. rewrite E2 in Hcm.
  split; [|split; [|split; assumption]]; intros b Hb.
  - now rewrite (Hs b Hb), Z.add_0_l.
  - now rewrite (Hm b Hb), Z.add_0_l.
Qed.

Lemma CT_small_ok : template_ok CT_small.
Proof. repeat split; eexists; vm_compute; reflexivity. Qed.

(** [write_to_dicom] returns whenever the simulation has run with the
    announced number of slices and the template UIDs end in a number. *)
Lemma write_to_dicom_total tmpl self fname gt r :
  template_ok tmpl ->
  recon self = Some r ->
  Z.of_nat (length (slices r)) = nsims self ->
  (gt = true -> groundtruth self <> None) ->
  exists out, write_to_dicom tmpl self fname gt = Ok out.
Proof.
  intros (Hse & Hst & Hsop & Hmed) Hr Hn Hgt.
  unfold write_to_dicom. rewrite Hr. cbn [of_option bind].
  cbn [set_recon nsims studyid seriesid groundtruth recon].
  rewrite Hn, Z.eqb_refl. cbn [negb].
  destruct Hse as [b1 H1]. destruct Hst as [b2 H2].
  destruct (offset_uid_ok _ (studyid self) _ H1) as (u1 & -> & _).
  destruct (offset_uid_ok _ (studyid self) _ H2) as (u2 & -> & _).
  cbn [bind].
  assert (exists vol, (if gt then groundtruth self else Some (Arr3 (slices r)))
                      = Some vol) as [vol ->].
  { destruct gt; [|eauto]. destruct (groundtruth self); [eauto|].
    now destruct Hgt. }
  cbn [of_option bind]. unfold enumerate.
  match goal with
  | |- context [bind ?m _] =>
      assert (exists o, m = Ok o) as [[[dl names] dk] ->]
        by (apply write_loop_total; assumption)
  end.
  cbn [bind]. eauto.
Qed.

End PersistFacts.

(** ** The simulation wrapper *)

Module SimFacts.
Import Py.

Lemma eqb_eq a b : Py.eqb a b = true <-> a = b.
Proof. unfold Py.eqb. destruct (list_eq_dec ascii_dec a b); intuition congruence. Qed.

Lemma eqb_refl a : Py.eqb a a = true.
Proof. now apply eqb_eq. Qed.

Lemma eqb_neq a b : Py.eqb a b = false <-> a <> b.
Proof. unfold Py.eqb. destruct (list_eq_dec ascii_dec a b); intuition congruence. Qed.

Lemma mem_In x l : mem x l = true <-> In x l.
Proof.
  unfold mem. rewrite existsb_exists. split.
  - intros (y & Hy & He). apply eqb_eq in He. now subst.
  - intros H. exists x. split; [assumption | apply eqb_refl].
Qed.

(** A name that upper-cases to a supported kind is no alias. *)
Lemma normalise_supported p : mem (upper p) options = true -> normalise p = p.
Proof.
  intros H. unfold normalise. destruct (mem p aliases) eqn:E; [|reflexivity].
  apply mem_In in E. simpl in E.
  destruct E as [<-|[<-|[<-|[<-|[]]]]]; discriminate H.
Qed.

(** Without a lesion diameter the wrapper always reaches Octave. *)
Lemma mirt_sim_default phantom pd rd rfov i0 g noise n verbose :
  exists c, mirt_sim phantom pd rd rfov i0 g noise n (LBool false) verbose = Ok c.
Proof. unfold mirt_sim. simpl. eauto. Qed.

Lemma check_lesion_CCT189 l :
  l <> [] -> length l <> 4%nat ->
  check_lesion (lit "CCT189") (LList l) = Raise ValueError.
Proof.
  intros Hl Hn. unfold check_lesion. destruct l as [|x l]; [contradiction|].
  cbn [truthy]. change (upper (lit "CCT189")) with (lit "CCT189").
  change (Py.eqb (lit "CCT189") (lit "CTP404")) with false.
  cbn [int_of_bool Z.land Z.eqb negb bind len].
  rewrite eqb_refl.
  destruct (Z.eqb_spec (Z.of_nat (length (x :: l))) 4) as [E|E]; [|reflexivity].
  exfalso. apply Hn. lia.
Qed.

Lemma check_lesion_CTP404 phantom l :
  l <> [] -> upper phantom = lit "CTP404" ->
  check_lesion phantom (LList l) = Raise ValueError.
Proof.
  intros Hl Hp. unfold check_lesion. destruct l as [|x l]; [contradiction|].
  cbn [truthy]. rewrite Hp, eqb_refl. reflexivity.
Qed.

(** A phantom that is neither spelled [CCT189] nor a casing of [CTP404]
    passes both checks with any list. *)
Lemma check_lesion_other phantom l :
  phantom <> lit "CCT189" -> upper phantom <> lit "CTP404" ->
  check_lesion phantom (LList l) = Ok tt.
Proof.
  intros H1 H2. unfold check_lesion. destruct (truthy (LList l)); [|reflexivity].
  apply eqb_neq in H1, H2. rewrite H1, H2. reflexivity.
Qed.

End SimFacts.

(** C4 as stated fails: an empty list given for a CCT189 phantom has a
    length other than 4, yet the wrapper goes on to call Octave. *)
Lemma C4_empty_list_passes :
  length (@nil Q) <> 4%nat /\
  exists c,
    mirt_sim (lit "CCT189") 200 200 340 300000 default_geometry true 1
      (LList []) true = Ok c.
Proof. split; [discriminate|]. vm_compute. eauto. Qed.

(** C4, amended: a non-empty list (or array) of a length other than 4 for
    a phantom spelled [CCT189] (or one of its aliases), and a non-empty list
    (or array) for a phantom that upper-cases to [CTP404], raise
    [ValueError]; a result [Raise] is produced before Octave is called. *)
Theorem C4_lesion_shape_checked phantom pd rd rfov i0 g noise n l verbose :
  l <> [] ->
  (normalise phantom = lit "CCT189" -> length l <> 4%nat ->
   mirt_sim phantom pd rd rfov i0 g noise n (LList l) verbose = Raise ValueError /\
   mirt_sim phantom pd rd rfov i0 g noise n (LArray l) verbose = Raise ValueError)
  /\
  (Py.upper (normalise phantom) = lit "CTP404" ->
   mirt_sim phantom pd rd rfov i0 g noise n (LList l) verbose = Raise ValueError /\
   mirt_sim phantom pd rd rfov i0 g noise n (LArray l) verbose = Raise ValueError).
Proof.
  intros Hl. split.
  - intros Hp Hn. unfold mirt_sim. rewrite Hp.
    rewrite SimFacts.check_lesion_CCT189 by assumption. now split.
  - intros Hp. unfold mirt_sim.
    rewrite SimFacts.check_lesion_CTP404 by assumption. now split.
Qed.

Lemma C4_lesion_shape_checked_witness :
  mirt_sim (lit "MITA-LCD") 200 200 340 300000 default_geometry true 1
    (LList [5; 3; 2]%Q) true = Raise ValueError /\
  mirt_sim (lit "ctp404") 200 200 340 300000 default_geometry true 1
    (LArray [5; 3]%Q) false = Raise ValueError.
Proof.
  split.
  - destruct (C4_lesion_shape_checked (lit "MITA-LCD") 200 200 340 300000
                default_geometry true 1 [5; 3; 2]%Q true) as [H _];
      [discriminate|].
    apply H; [reflexivity | discriminate].
  - destruct (C4_lesion_shape_checked (lit "ctp404") 200 200 340 300000
                default_geometry true 1 [5; 3]%Q false) as [_ H];
      [discriminate|].
    apply H. reflexivity.
Defined.




(** C10 as stated fails for the CTP404 check: it upper-cases the phantom
    before comparing, so a lower-case [ctp404] with a list is rejected. *)
Lemma C10_ctp404_check_ignores_case :
  lit "ctp404" <> lit "CTP404" /\
  mirt_sim (lit "ctp404") 200 200 340 300000 default_geometry true 1
    (LList [5; 6]%Q) true = Raise ValueError.
Proof. split; [discriminate | reflexivity]. Qed.

(** C10, amended: the constructor accepts every casing of the three kinds
    and stores the phantom as given; in the wrapper the CTP404 check
    compares the upper-cased phantom, and only the CCT189 check compares
    the phantom as given; so the accepted [cct189] with a list of three
    diameters raises no [ValueError] and reaches Octave. *)
Theorem C10_case_handling :
  (forall k, Py.mem (Py.upper (k_phantom k)) options = true ->
     exists ct, CTobj_init k = Ok ct /\ phantom ct = k_phantom k) /\
  (forall p pd rd rfov i0 g noise n l verbose,
     l <> [] -> Py.upper (normalise p) = lit "CTP404" ->
     mirt_sim p pd rd rfov i0 g noise n (LList l) verbose = Raise ValueError) /\
  (forall p pd rd rfov i0 g noise n l verbose,
     normalise p <> lit "CCT189" -> Py.upper (normalise p) <> lit "CTP404" ->
     exists c, mirt_sim p pd rd rfov i0 g noise n (LList l) verbose = Ok c) /\
  (exists ct c,
     CTobj_init
       {| k_phantom := lit "cct189"; k_patient_diameter := 200;
          k_reference_diameter := 200; k_reference_fov := 340;
          k_I0 := 300000; k_geom := default_geometry; k_add_noise := true;
          k_fov := 340; k_nsims := 1;
          k_lesion_diameter := LList [5; 3; 2]%Q; k_age := 0;
          k_patientname := []; k_patientid := 0; k_studyname := [];
          k_studyid := 0; k_seriesid := 0 |} = Ok ct /\
     phantom ct = lit "cct189" /\
     mirt_sim (phantom ct) (inject_Z (patient_diameter ct))
       (reference_diameter ct) (reference_fov ct) (I0 ct) (geom ct)
       (add_noise ct) (nsims ct) (lesion_diameter ct) true = Ok c).
Proof.
  split; [|split; [|split]].
  - intros k Hk. unfold CTobj_init.
    rewrite (SimFacts.normalise_supported _ Hk), Hk. cbn [negb].
    eexists. split; reflexivity.
  - intros p pd rd rfov i0 g noise n l verbose Hl Hp. unfold mirt_sim.
    now rewrite SimFacts.check_lesion_CTP404.
  - intros p pd rd rfov i0 g noise n l verbose H1 H2. unfold mirt_sim.
    rewrite SimFacts.check_lesion_other by assumption. cbn [bind]. eauto.
  - do 2 eexists. split; [reflexivity|]. split; reflexivity.
Qed.

Lemma C10_case_handling_witness :
  (exists ct, CTobj_init default_args = Ok ct /\ phantom ct = lit "CCT189") /\
  mirt_sim (lit "Ctp404") 200 200 340 300000 default_geometry true 1
    (LList [5; 6]%Q) true = Raise ValueError /\
  (exists c, mirt_sim (lit "cct189") 200 200 340 300000 default_geometry true 1
               (LList [5; 3; 2]%Q) true = Ok c).
Proof.
  destruct C10_case_handling as (H1 & H2 & H3 & _).
  split; [|split].
  - apply (H1 default_args). reflexivity.
  - apply H2; [discriminate | reflexivity].
  - apply H3; discriminate.
Defined.

(** ** The age curve *)

Module AgeFacts.
Local Open Scope R_scope.

Lemma float_pow_15 x : 0 < x -> float_pow x 1.5 = x * sqrt x.
Proof.
  intros Hx. unfold float_pow.
  destruct (Req_dec_T x 0) as [E|_]; [lra|].
  replace 1.5 with (1 + / 2) by lra.
  now rewrite Rpower_plus, Rpower_1, Rpower_sqrt.
Qed.

Lemma float_pow_05 x : 0 < x -> float_pow x 0.5 = sqrt x.
Proof.
  intros Hx. unfold float_pow.
  destruct (Req_dec_T x 0) as [E|_]; [lra|].
  replace 0.5 with (/ 2) by lra. now apply Rpower_sqrt.
Qed.

(** The curve at a positive age at most 22, with the powers as roots. *)
Lemma curve_value age : (0 < age <= 22)%Z ->
  age_to_eff_diameter age =
  Ok (18.788598 + 0.19486455 * (IZR age * sqrt (IZR age))
      + -1.060056 * sqrt (IZR age) + -7.6244784 * exp (- IZR age)).
Proof.
  intros [H0 H22]. unfold age_to_eff_diameter.
  destruct (Z.ltb_spec 22 age) as [H|_]; [lia|].
  assert (0 < IZR age) by now apply IZR_lt.
  cbv zeta. now rewrite float_pow_15, float_pow_05.
Qed.

Lemma exp_1_gt_2 : 2 < exp 1.
Proof. pose proof (exp_ineq1 1). lra. Qed.

Lemma exp_neg_pos x : 0 < exp (- x).
Proof. apply exp_pos. Qed.

Lemma exp_neg_1 : exp (Ropp 1) < / 2.
Proof.
  rewrite exp_Ropp. apply Rinv_lt_contravar; [|apply exp_1_gt_2].
  pose proof exp_1_gt_2. nra.
Qed.

Lemma exp_5_gt_32 : 32 < exp 5.
Proof.
  replace 5 with (1 + (1 + (1 + (1 + 1)))) by lra.
  rewrite !exp_plus. pose proof exp_1_gt_2 as H.
  assert (4 < exp 1 * exp 1) as H2 by nra.
  assert (8 < exp 1 * (exp 1 * exp 1)) as H3 by nra.
  assert (16 < exp 1 * (exp 1 * (exp 1 * exp 1))) as H4 by nra.
  nra.
Qed.

Lemma exp_neg_5 : exp (Ropp 5) < / 32.
Proof.
  rewrite exp_Ropp. apply Rinv_lt_contravar; [|apply exp_5_gt_32].
  pose proof exp_5_gt_32. nra.
Qed.

Lemma sqrt_bounds x lo hi :
  0 <= lo -> 0 < hi -> lo * lo <= x -> x < hi * hi -> lo <= sqrt x < hi.
Proof.
  intros Hlo Hhi H1 H2.
  assert (0 <= x) as Hx by nra.
  pose proof (sqrt_pos x) as Hs. pose proof (sqrt_sqrt x Hx) as Hss.
  split; nra.
Qed.

(** The four thresholds of [pediatric_subgroup]. *)
Lemma threshold_1 : exists a, age_to_eff_diameter 1 = Ok a /\ 14 < a < 18.
Proof.
  eexists. split; [apply curve_value; lia|].
  rewrite sqrt_1.
  pose proof exp_neg_1. pose proof (exp_neg_pos 1). lra.
Qed.

Lemma threshold_5 : exists a, age_to_eff_diameter 5 = Ok a /\ 18.3 < a < 41.
Proof.
  eexists. split; [apply curve_value; lia|].
  destruct (sqrt_bounds 5 2 2.3) as [H1 H2]; try lra.
  pose proof exp_neg_5. pose proof (exp_neg_pos 5). nra.
Qed.

Lemma threshold_12 : exists a, age_to_eff_diameter 12 = Ok a /\ a < 41.
Proof.
  eexists. split; [apply curve_value; lia|].
  destruct (sqrt_bounds 12 3 4) as [H1 H2]; try lra.
  pose proof (exp_neg_pos 12). nra.
Qed.

Lemma threshold_22 : exists a, age_to_eff_diameter 22 = Ok a /\ a < 41.
Proof.
  eexists. split; [apply curve_value; lia|].
  destruct (sqrt_bounds 22 4 5) as [H1 H2]; try lra.
  pose proof (exp_neg_pos 22). nra.
Qed.

Lemma Rltb_true x y : x < y -> Rltb x y = true.
Proof. intros H. unfold Rltb. now destruct (Rlt_dec x y). Qed.

Lemma Rltb_false x y : y <= x -> Rltb x y = false.
Proof. intros H. unfold Rltb. destruct (Rlt_dec x y); [lra | reflexivity]. Qed.

Lemma Rgeb_true x y : y <= x -> Rgeb x y = true.
Proof. intros H. unfold Rgeb. destruct (Rge_dec x y); [reflexivity | lra]. Qed.

Lemma subgroup_newborn d : d <= 14 -> pediatric_subgroup d = Ok newborn.
Proof.
  intros H. unfold pediatric_subgroup.
  destruct threshold_1 as (a1 & -> & H1). cbn [bind].
  rewrite Rltb_true by lra. reflexivity.
Qed.

Lemma subgroup_infant d : 18 <= d <= 18.3 -> pediatric_subgroup d = Ok infant.
Proof.
  intros H. unfold pediatric_subgroup.
  destruct threshold_1 as (a1 & -> & H1).
  destruct threshold_5 as (a5 & -> & H5). cbn [bind].
  rewrite Rltb_false by lra. rewrite Rgeb_true by lra.
  rewrite Rltb_true by lra. reflexivity.
Qed.

Lemma subgroup_adult d : 41 <= d -> pediatric_subgroup d = Ok adult.
Proof.
  intros H. unfold pediatric_subgroup.
  destruct threshold_1 as (a1 & -> & H1).
  destruct threshold_5 as (a5 & -> & H5).
  destruct threshold_12 as (a12 & -> & H12).
  destruct threshold_22 as (a22 & -> & H22). cbn [bind].
  rewrite (Rltb_false d a1), (Rltb_false d a5), (Rltb_false d a12),
    (Rltb_false d a22) by lra.
  rewrite !andb_false_r. reflexivity.
Qed.

(** The constant the extractor classifies. *)
Lemma subgroup_constant : pediatric_subgroup 18.2 = Ok infant.
Proof. apply subgroup_infant. lra. Qed.


End AgeFacts.



(** ** Paths *)

Module PathFacts.
Import Py PyFacts.

Lemma name_join p c : name (joinpath p c) = c.
Proof. unfold name, joinpath. apply last_last. Qed.

Lemma parent_join p c : parent (joinpath p c) = p.
Proof. unfold parent, joinpath. apply removelast_last. Qed.


Lemma rpartition_ext base ext :
  ~ In "."%char ext ->
  rpartition "."%char (base ++ "."%char :: ext) = Some (base, ext).
Proof.
  intros H. unfold rpartition. rewrite rev_app_distr. cbn [rev].
  rewrite <- app_assoc. cbn [app].
  rewrite partition_char by (now rewrite <- in_rev).
  now rewrite !rev_involutive.
Qed.

(** A name [base.ext] splits into its stem and its suffix. *)
Lemma stem_suffix p base ext :
  base <> [] -> ext <> [] -> ~ In "."%char ext ->
  stem (joinpath p (base ++ "."%char :: ext)) = base /\
  suffix (joinpath p (base ++ "."%char :: ext)) = "."%char :: ext.
Proof.
  intros Hb He Hdot. unfold stem, suffix.
  rewrite name_join, rpartition_ext by assumption.
  destruct base; [contradiction|]. destruct ext; [contradiction|]. now split.
Qed.

Lemma fmt_03d_length i : (0 <= i < 1000)%Z -> length (fmt_03d i) = 3%nat.
Proof.
  intros Hi.
  assert (forallb (fun n => Nat.eqb (length (fmt_03d (Z.of_nat n))) 3)
            (seq 0 1000) = true) as H by (vm_compute; reflexivity).
  rewrite forallb_forall in H.
  specialize (H (Z.to_nat i)). rewrite Z2Nat.id in H by lia.
  apply Nat.eqb_eq, H, in_seq. lia.
Qed.

End PathFacts.

(** C2 as stated fails: with study id 1 and two slices the second slice
    (index 1) gets the final segment 12325, the template's 12322 plus 3,
    and not 12322 plus slice index + study id + series id = 12324. *)
Lemma C2_second_slice_offset :
  exists ct self' fnames w0 w1,
    scanned (example_args 200 1 0 2) = Ok ct /\
    write_to_dicom CT_small ct [lit "out"; lit "image.dcm"] false
      = Ok (self', fnames, [w0; w1]) /\
    Py.int_of_str (final_segment (SOPInstanceUID CT_small)) = Ok 12322%Z /\
    final_segment (SOPInstanceUID (snd w1)) = lit "12325" /\
    final_segment (SOPInstanceUID (snd w1))
      <> Py.str_of_int (12322 + (1 + studyid ct + seriesid ct)).
Proof.
  do 5 eexists. split; [vm_compute; reflexivity|].
  split; [vm_compute; reflexivity|].
  split; [vm_compute; reflexivity|].
  split; [vm_compute; reflexivity|]. vm_compute. discriminate.
Qed.

(** C2, amended: every file of a call carries the Series and Study UIDs
    derived from the template with the study id as offset; the SOP and
    media-storage UIDs of slice [i] are derived with the offset
    [i + study id + series id] from the UIDs of the slice before it (from
    the template for the first slice).  A derivation takes the final
    segment, adds the offset and replaces the segment's text in the UID;
    relative to the template the final segment of slice [i] has grown by
    [(i + 1) * (study id + series id) + i * (i + 1) / 2]. *)
Theorem C2_uid_derivation tmpl self fname gt self' fnames disk i w :
  write_to_dicom tmpl self fname gt = Ok (self', fnames, disk) ->
  nth_error disk i = Some w ->
  offset_uid (SeriesInstanceUID tmpl) (studyid self)
    = Ok (SeriesInstanceUID (snd w)) /\
  offset_uid (StudyInstanceUID tmpl) (studyid self)
    = Ok (StudyInstanceUID (snd w)) /\
  offset_uid (SOPInstanceUID (prev_ds tmpl disk i))
    (Z.of_nat i + studyid self + seriesid self)
    = Ok (SOPInstanceUID (snd w)) /\
  offset_uid (MediaStorageSOPInstanceUID (prev_ds tmpl disk i))
    (Z.of_nat i + studyid self + seriesid self)
    = Ok (MediaStorageSOPInstanceUID (snd w)) /\
  (forall uid off uid', offset_uid uid off = Ok uid' ->
     exists n, Py.int_of_str (final_segment uid) = Ok n /\
       uid' = Py.replace (final_segment uid) (Py.str_of_int (n + off)) uid /\
       final_segment uid' = Py.str_of_int (n + off)) /\
  (forall b, Py.int_of_str (final_segment (SOPInstanceUID tmpl)) = Ok b ->
     final_segment (SOPInstanceUID (snd w)) =
     Py.str_of_int (b + (Z.of_nat i + 1) * (studyid self + seriesid self) + tri i)) /\
  (forall b, Py.int_of_str (final_segment (MediaStorageSOPInstanceUID tmpl)) = Ok b ->
     final_segment (MediaStorageSOPInstanceUID (snd w)) =
     Py.str_of_int (b + (Z.of_nat i + 1) * (studyid self + seriesid self) + tri i)) /\
  (2 * tri i = Z.of_nat i * (Z.of_nat i + 1))%Z.
Proof.
  intros H Hw.
  apply PersistFacts.write_to_dicom_inv in H
    as (r & vol & su & st & _ & _ & _ & Hsu & Hst & _ & _ & _ & Hws).
  destruct (Hws i w Hw) as (_ & Hh & _ & Hs & Hm & Hc & Hcm).
  destruct Hh as (_ & _ & _ & _ & _ & _ & _ & Hse & Hsy).
  cbn [header SeriesInstanceUID StudyInstanceUID] in Hse, Hsy.
  rewrite Hse, Hsy.
  repeat (split; [assumption|]).
  split; [|split; [assumption|split; [assumption|apply UidFacts.tri_closed]]].
  intros uid off uid' Hu.
  destruct (UidFacts.offset_uid_inv _ _ _ Hu) as [n Hn].
  exists n. split; [assumption|].
  destruct (UidFacts.offset_uid_ok uid off n Hn) as (u & Hu' & Hr & Hf).
  rewrite Hu in Hu'. injection Hu' as <-. now split.
Qed.

Lemma C2_uid_derivation_witness :
  exists ct self' fnames w0 w1,
    scanned (example_args 200 1 0 2) = Ok ct /\
    write_to_dicom CT_small ct [lit "out"; lit "image.dcm"] false
      = Ok (self', fnames, [w0; w1]) /\
    final_segment (SOPInstanceUID (snd w1)) =
    Py.str_of_int (12322 + (Z.of_nat 1 + 1) * (studyid ct + seriesid ct) + tri 1).
Proof.
  do 5 eexists. split; [vm_compute; reflexivity|].
  split; [vm_compute; reflexivity|].
  match goal with
  | |- final_segment (SOPInstanceUID (snd ?w)) =
       Py.str_of_int (_ + _ * (studyid ?ct + _) + _) =>
      apply (proj1 (proj2 (proj2 (proj2 (proj2 (proj2
               (C2_uid_derivation CT_small ct [lit "out"; lit "image.dcm"]
                  false _ _ _ 1 w eq_refl eq_refl)))))))
  end.
  vm_compute; reflexivity.
Defined.

(** ** Evaluating a batch *)

(** The extractor's classification is the only real-valued computation of
    a batch; with its value supplied the rest evaluates. *)
Ltac eval_batch :=
  unfold run_batch_sim, dicom_meta_to_dataframe;
  rewrite AgeFacts.subgroup_constant;
  vm_compute.

(** C1: the code departs from the claim.  In the batch with dose levels
    [1.0, 0.5] and two repeats, the second slice of the first study
    (study 0, series 0, slice 1) and the first slice of the second study
    (study 1, series 0, slice 0) are written to different files with the
    same SOP and media-storage UID, final segment 12323. *)
Theorem C1_sop_uid_collision :
  exists metadata disk w1 w2,
    run_batch_sim blank_sim CT_small [lit "data"] (lit "fbp") true
      (example_args 200 0 0 2) [lit "CCT189"] [200%Z] 300000 [1; 1 # 2]
      = Ok (metadata, disk) /\
    nth_error disk 1 = Some w1 /\ nth_error disk 2 = Some w2 /\
    (AcquisitionNumber (snd w1), SeriesNumber (snd w1), InstanceNumber (snd w1) - 1)%Z
      = (0, 0, 1)%Z /\
    (AcquisitionNumber (snd w2), SeriesNumber (snd w2), InstanceNumber (snd w2) - 1)%Z
      = (1, 0, 0)%Z /\
    fst w1 <> fst w2 /\
    SOPInstanceUID (snd w1) = SOPInstanceUID (snd w2) /\
    MediaStorageSOPInstanceUID (snd w1) = MediaStorageSOPInstanceUID (snd w2) /\
    final_segment (SOPInstanceUID (snd w1)) = lit "12323".
Proof.
  do 4 eexists. split; [eval_batch; reflexivity|].
  split; [reflexivity|]. split; [reflexivity|].
  split; [reflexivity|]. split; [reflexivity|].
  split; [vm_compute; discriminate|].
  split; [reflexivity|]. split; [reflexivity|]. vm_compute. reflexivity.
Qed.

(** X1: Within one call the slices do get distinct final segments, as long as
    the identifiers are not negative. *)
Lemma sop_segments_distinct_in_call tmpl self fname gt self' fnames disk b i j w w' :
  write_to_dicom tmpl self fname gt = Ok (self', fnames, disk) ->
  Py.int_of_str (final_segment (SOPInstanceUID tmpl)) = Ok b ->
  (0 <= studyid self + seriesid self)%Z ->
  nth_error disk i = Some w -> nth_error disk j = Some w' -> i <> j ->
  final_segment (SOPInstanceUID (snd w)) <> final_segment (SOPInstanceUID (snd w')).
Proof.
  intros H Hb Hs Hw Hw' Hij.
  apply PersistFacts.write_to_dicom_inv in H
    as (r & vol & su & st & _ & _ & _ & _ & _ & _ & _ & _ & Hws).
  destruct (Hws i w Hw) as (_ & _ & _ & Hi & _).
  destruct (Hws j w' Hw') as (_ & _ & _ & Hj & _).
  rewrite (Hi b Hb), (Hj b Hb). intros E. apply PyFacts.str_of_int_inj in E.
  pose proof (UidFacts.tri_closed i). pose proof (UidFacts.tri_closed j).
  assert (Z.of_nat i <> Z.of_nat j) by lia. nia.
Qed.

(** C8 as stated fails: after a simulation with two repeats the ground
    truth is a single image, and it is written to the suffixed name
    [image_000.dcm], not to [image.dcm]. *)
Lemma C8_single_slice_suffixed :
  exists ct self' d,
    scanned (example_args 200 0 0 2) = Ok ct /\
    option_map (fun v => length (slices v)) (groundtruth ct) = Some 1%nat /\
    write_to_dicom CT_small ct [lit "out"; lit "image.dcm"] true
      = Ok (self', [[lit "out"; lit "image_000.dcm"]],
            [([lit "out"; lit "image_000.dcm"], d)]) /\
    [lit "out"; lit "image_000.dcm"] <> [lit "out"; lit "image.dcm"].
Proof.
  do 3 eexists. split; [vm_compute; reflexivity|].
  split; [reflexivity|]. split; [vm_compute; reflexivity|]. discriminate.
Qed.

(** C8, amended: the list returned holds exactly the paths written, one
    per slice of the volume written, in order; whether the names carry a
    slice index is decided by the number of slices of the reconstruction
    (which the call requires to equal [nsims]): if it exceeds 1, slice [i]
    goes to the name with [_] and the index, zero-padded to three digits,
    before the extension, otherwise every slice goes to the name given. *)
Theorem C8_slice_file_names tmpl self fname gt self' fnames disk :
  write_to_dicom tmpl self fname gt = Ok (self', fnames, disk) ->
  exists r vol,
    recon self = Some r /\
    nsims self = Z.of_nat (length (slices r)) /\
    (if gt then groundtruth self else Some (Arr3 (slices r))) = Some vol /\
    fnames = map fst disk /\
    length fnames = length (slices vol) /\
    (forall i, (i < length (slices vol))%nat ->
       nth_error fnames i =
       Some (if (1 <? nsims self)%Z
             then joinpath (parent fname)
                    (stem fname ++ lit "_" ++ Py.fmt_03d (Z.of_nat i)
                       ++ suffix fname)
             else fname)) /\
    (forall dir base ext i,
       fname = joinpath dir (base ++ "."%char :: ext) ->
       base <> [] -> ext <> [] -> ~ In "."%char ext ->
       (1 < nsims self)%Z -> (i < length (slices vol))%nat ->
       nth_error fnames i =
       Some (joinpath dir
               (base ++ lit "_" ++ Py.fmt_03d (Z.of_nat i) ++ "."%char :: ext)) /\
       ((i < 1000)%nat -> length (Py.fmt_03d (Z.of_nat i)) = 3%nat)).
Proof.
  intros H.
  apply PersistFacts.write_to_dicom_inv in H
    as (r & vol & su & st & Hr & Hn & Hvol & _ & _ & _ & Hf & Hlen & Hws).
  exists r, vol. split; [assumption|]. split; [now symmetry|].
  split; [assumption|]. split; [assumption|].
  split; [now rewrite Hf, length_map|].
  assert (Hnames : forall i, (i < length (slices vol))%nat ->
            nth_error fnames i = Some (slice_fname fname (nsims self) (Z.of_nat i))).
  { intros i Hi. rewrite Hf, nth_error_map.
    destruct (nth_error disk i) as [w|] eqn:Hw.
    - cbn [option_map]. f_equal. apply (Hws i w Hw).
    - apply nth_error_None in Hw. lia. }
  split; [exact Hnames|].
  intros dir base ext i -> Hb He Hdot Hn1 Hi.
  split; [|intros; apply PathFacts.fmt_03d_length; lia].
  rewrite (Hnames i Hi). unfold slice_fname.
  destruct (Z.ltb_spec 1 (nsims self)) as [_|]; [|lia].
  destruct (PathFacts.stem_suffix dir base ext Hb He Hdot) as [-> ->].
  now rewrite PathFacts.parent_join.
Qed.

Lemma C8_slice_file_names_witness :
  exists ct self' fnames disk,
    scanned (example_args 200 0 0 2) = Ok ct /\
    write_to_dicom CT_small ct [lit "out"; lit "image.dcm"] false
      = Ok (self', fnames, disk) /\
    fnames = map fst disk /\ length fnames = 2%nat /\
    nth_error fnames 1 = Some [lit "out"; lit "image_001.dcm"].
Proof.
  let v := eval vm_compute in (scanned (example_args 200 0 0 2)) in
  match v with Ok ?c => exists c end.
  match goal with
  | |- exists s n d, _ /\ write_to_dicom ?t ?ct ?f ?g = _ /\ _ =>
      let v := eval vm_compute in (write_to_dicom t ct f g) in
      match v with
      | Ok (?s, ?n, ?d) =>
          exists s, n, d;
          assert (write_to_dicom t ct f g = Ok (s, n, d)) as E
            by (vm_compute; reflexivity)
      end
  end.
  split; [vm_compute; reflexivity|]. split; [exact E|].
  destruct (C8_slice_file_names _ _ _ _ _ _ _ E)
    as (r & vol & Hr & Hn & Hvol & Hf & Hlen & _ & Hext).
  cbn [recon] in Hr. injection Hr as <-. injection Hvol as <-.
  split; [assumption|]. split; [exact Hlen|].
  destruct (Hext [lit "out"] (lit "image") (lit "dcm") 1%nat) as [H1 _];
    [reflexivity | discriminate | discriminate
    | vm_compute; intros [H|[H|[H|[]]]]; discriminate
    | cbn [nsims]; lia | simpl; lia |].
  exact H1.
Defined.

(** C6: the code departs from the claim.  The extractor classifies the
    constant 18.2 instead of the diameter it has just parsed: every file
    is labelled infant with age estimate 2.  In the batch below the files
    of the 11.2 cm phantom (newborn range) and of the 50 cm phantom (adult
    range) receive the same label. *)
Theorem C6_subgroup_ignores_diameter :
  (forall disk fname r,
     dicom_meta_to_dataframe disk fname = Ok r ->
     r_subgroup r = infant /\ r_age r = 2) /\
  exists metadata disk r1 r2,
    run_batch_sim blank_sim CT_small [lit "data"] (lit "fbp") true default_args
      [lit "CCT189"] [112; 500]%Z 300000 [1] = Ok (metadata, disk) /\
    nth_error metadata 0 = Some r1 /\ nth_error metadata 3 = Some r2 /\
    r_diameter r1 = 11.2 /\ r_diameter r2 = 50.0 /\
    pediatric_subgroup (Q2R (r_diameter r1)) = Ok newborn /\
    pediatric_subgroup (Q2R (r_diameter r2)) = Ok adult /\
    r_subgroup r1 = infant /\ r_subgroup r2 = infant.
Proof.
  split.
  - intros disk fname r H. unfold dicom_meta_to_dataframe in H.
    apply bind_Ok in H as (dcm & _ & H).
    rewrite AgeFacts.subgroup_constant in H. cbn [bind] in H.
    apply bind_Ok in H as (after_cm & _ & H).
    apply bind_Ok in H as (after_colon & _ & H).
    apply bind_Ok in H as (diameter & _ & H).
    apply bind_Ok in H as ([[series dose] rep] & _ & H).
    injection H as <-. split; reflexivity.
  - do 4 eexists. split; [eval_batch; reflexivity|].
    split; [reflexivity|]. split; [reflexivity|].
    split; [reflexivity|]. split; [reflexivity|].
    cbn [r_diameter r_subgroup].
    split; [|split; [|split; reflexivity]].
    + apply AgeFacts.subgroup_newborn. unfold Q2R. simpl. lra.
    + apply AgeFacts.subgroup_adult. unfold Q2R. simpl. lra.
Qed.

(** ** Reading a dose-sweep file back *)

Module ExtractFacts.
Import Py PyFacts SimFacts PathFacts.




Ltac foreign := simpl; intros H; repeat (destruct H as [H|H]; [discriminate|]); contradiction.











Lemma patient_name_nonempty d phantom : patient_name d phantom <> [].
Proof.
  unfold patient_name. intros H. apply app_eq_nil in H as [H _].
  now apply repr_div10_nonempty in H.
Qed.







(** *** Supported names are safe names *)

Lemma In_all_ascii c : In c all_ascii.
Proof.
  unfold all_ascii. rewrite <- (ascii_nat_embedding c).
  apply in_map, in_seq. pose proof (nat_ascii_bounded c). lia.
Qed.

Lemma casings_complete p : In p (casings (upper p)).
Proof.
  induction p as [|c p IH]; [now left|].
  cbn [upper map casings]. apply in_flat_map. exists c. split.
  - apply filter_In. split; [apply In_all_ascii | apply Ascii.eqb_refl].
  - now apply in_map.
Qed.

(** Every name the constructor accepts, in any casing, and every alias is
    read back by the extractor. *)
Lemma accepted_names_safe p :
  mem (upper (normalise p)) options = true -> safe_name p = true.
Proof.
  unfold normalise. destruct (mem p aliases) eqn:Ea.
  - intros _. apply mem_In in Ea. simpl in Ea.
    destruct Ea as [<-|[<-|[<-|[<-|[]]]]]; reflexivity.
  - intros H. apply mem_In in H. pose proof (casings_complete p) as Hp.
    assert (forall s, In s options -> forallb safe_name (casings s) = true) as Hs.
    { intros s Hs. simpl in Hs.
      destruct Hs as [<-|[<-|[<-|[]]]]; vm_compute; reflexivity. }
    specialize (Hs _ H). rewrite forallb_forall in Hs. auto.
Qed.

End ExtractFacts.

(** ** The batch loops *)

Module BatchFacts.
Import Py PyFacts SimFacts PathFacts ExtractFacts PersistFacts.

Lemma CTobj_init_inv k ct :
  CTobj_init k = Ok ct -> k_patientname k <> [] ->
  patientname ct = k_patientname k /\
  patient_diameter ct = k_patient_diameter k /\
  studyid ct = k_studyid k /\ seriesid ct = k_seriesid k /\
  nsims ct = k_nsims k.
Proof.
  unfold CTobj_init. intros H Hne.
  destruct (negb (mem (upper (normalise (k_phantom k))) options));
    [discriminate|].
  injection H as <-. cbn. repeat split.
  destruct (k_patientname k); [contradiction | reflexivity].
Qed.

Lemma run_inv octave ct verbose ct' :
  run octave ct verbose = Ok ct' ->
  exists r, ct' = set_results ct r.
Proof.
  unfold run. intros H. apply bind_Ok in H as (c & _ & H).
  apply bind_Ok in H as (r & _ & H). injection H as <-. eauto.
Qed.

(** The name of the file of slice [i]. *)
Lemma slice_fname_dcm dir base n i :
  base <> [] ->
  slice_fname (joinpath dir (base ++ lit ".dcm")) n i =
  joinpath dir ((base ++ slice_suffix n i) ++ lit ".dcm").
Proof.
  intros Hb. unfold slice_fname, slice_suffix.
  destruct (1 <? n)%Z; [|now rewrite app_nil_r].
  destruct (stem_suffix dir base (lit "dcm") Hb) as [Hs Hx];
    [discriminate | foreign |].
  change (base ++ "."%char :: lit "dcm") with (base ++ lit ".dcm") in Hs, Hx.
  rewrite Hs, Hx, parent_join. change ("."%char :: lit "dcm") with (lit ".dcm").
  now rewrite <- !app_assoc.
Qed.

Section Loops.

Variable octave : octave_call -> result sim_output.
Variable tmpl : dataset.
Variable root : Path.
Variable fk : str.
Variable verbose : bool.
Variable kw : ctor_args.

(** One round of the dose loop: the files of one combination. *)
Lemma dose_iteration_files doses phantom pid d sid dose ct fnames w :
  dose_iteration octave tmpl root fk verbose kw doses phantom pid d
    (patient_name d phantom) (sid, dose) = Ok (ct, fnames, w) ->
  exists pct,
    rel_dose_percent doses dose = Ok pct /\
    fnames = map fst w /\
    Z.of_nat (length w) = k_nsims kw /\
    patientname ct = patient_name d phantom /\
    patient_diameter ct = d /\
    forall i x, nth_error w i = Some x ->
      fst x = joinpath (sweep_dir root fk phantom d pct)
                ((patient_name d phantom ++ slice_suffix (k_nsims kw) (Z.of_nat i))
                   ++ lit ".dcm") /\
      PatientName (snd x) = patient_name d phantom /\
      ImageComments (snd x) = comment d.
Proof.
  unfold dose_iteration. intros H.
  apply bind_Ok in H as (pct & Hpct & H).
  apply bind_Ok in H as (ct0 & Hinit & H).
  apply bind_Ok in H as (ct1 & Hrun & H).
  apply CTobj_init_inv in Hinit as (Hn & Hd & Hs & Hse & Hns);
    [|apply patient_name_nonempty].
  cbn in Hn, Hd, Hs, Hse, Hns.
  apply run_inv in Hrun as [r ->].
  cbn [set_results patientname] in H. rewrite Hn in H.
  apply write_to_dicom_inv in H
    as (rc & vol & su & st & Hr & Hlen & Hvol & _ & _ & -> & Hf & Hl & Hws).
  cbn [set_results recon nsims] in Hr, Hlen, Hvol, Hws.
  injection Hvol as <-. cbn [slices] in Hl.
  exists pct. split; [assumption|]. split; [assumption|].
  split; [now rewrite Hl, Hlen, Hns|].
  split; [assumption|]. split; [assumption|].
  intros i x Hx. destruct (Hws i x Hx) as (Hp & Hh & _).
  destruct Hh as (Hpn & _ & _ & Hic & _).
  cbn [header PatientName ImageComments set_results patientname
       patient_diameter] in Hpn, Hic.
  rewrite Hp, Hpn, Hic, Hn, Hd, Hns.
  split; [|now split].
  apply slice_fname_dcm, patient_name_nonempty.
Qed.

Lemma slice_fname_in_dir dir file n i :
  exists leaf, slice_fname (joinpath dir file) n i = joinpath dir leaf.
Proof.
  unfold slice_fname. destruct (1 <? n)%Z; [|eauto].
  rewrite parent_join. eauto.
Qed.

Lemma sweep_dir_below phantom d pct file :
  exists leaf,
    joinpath (sweep_dir root fk phantom d pct) file
    = diameter_dir root phantom d ++ leaf.
Proof.
  unfold sweep_dir, joinpath. rewrite <- !app_assoc. eauto.
Qed.

(** The files of an auxiliary call (noise free or ground truth). *)
Lemma auxiliary_files phantom d ct file gt ct' names dk :
  write_to_dicom tmpl ct (joinpath (diameter_dir root phantom d) file) gt
    = Ok (ct', names, dk) ->
  patientname ct = patient_name d phantom -> patient_diameter ct = d ->
  names = map fst dk /\
  patientname ct' = patient_name d phantom /\ patient_diameter ct' = d /\
  forall x, In x dk -> batch_write root phantom d x.
Proof.
  intros H Hn Hd.
  apply write_to_dicom_inv in H
    as (rc & vol & su & st & _ & _ & _ & _ & _ & -> & Hf & _ & Hws).
  split; [assumption|]. split; [assumption|]. split; [assumption|].
  intros x Hx. apply In_nth_error in Hx as [i Hi].
  destruct (Hws i x Hi) as (Hp & Hh & _).
  destruct Hh as (Hpn & _ & _ & Hic & _).
  cbn [header PatientName ImageComments] in Hpn, Hic.
  unfold batch_write. rewrite Hp, Hpn, Hic, Hn, Hd.
  split; [|now split].
  destruct (slice_fname_in_dir (diameter_dir root phantom d) file (nsims ct)
              (Z.of_nat i)) as [leaf ->].
  exists [leaf]. reflexivity.
Qed.

(** The dose loop, collected. *)
Lemma sweep_files doses phantom pid d : forall es sweep,
  Forall2 (fun e r =>
             dose_iteration octave tmpl root fk verbose kw doses phantom pid d
               (patient_name d phantom) e = Ok r) es sweep ->
  concat (map (fun r => snd (fst r)) sweep) = map fst (concat (map snd sweep)) /\
  (forall x, In x (concat (map snd sweep)) -> batch_write root phantom d x) /\
  (forall r, In r sweep ->
     patientname (fst (fst r)) = patient_name d phantom /\
     patient_diameter (fst (fst r)) = d).
Proof.
  induction 1 as [|[sid dose] [[ct fnames] w] es sweep He _ IH].
  - repeat split; simpl; tauto.
  - destruct IH as (IH1 & IH2 & IH3).
    apply dose_iteration_files in He
      as (pct & _ & Hf & _ & Hn & Hd & Hws).
    cbn [map concat fst snd]. split; [|split].
    + now rewrite map_app, IH1, Hf.
    + intros x Hx. apply in_app_or in Hx as [Hx|Hx]; [|auto].
      apply In_nth_error in Hx as [i Hi].
      destruct (Hws i x Hi) as (Hp & Hpn & Hic).
      unfold batch_write. rewrite Hp. split; [apply sweep_dir_below|now split].
    + intros r [<-|Hr]; [now split | auto].
Qed.

Lemma last_some_In {A} (l : list A) a :
  last (map Some l) None = Some a -> In a l.
Proof.
  induction l as [|x l IH]; [discriminate|].
  destruct l as [|y l].
  - simpl. intros H. injection H. auto.
  - intros H. right. apply IH. exact H.
Qed.

(** One round of the diameter loop. *)
Lemma diameter_iteration_inv doses phantom pid d names dk :
  diameter_iteration octave tmpl root fk verbose kw doses phantom (pid, d)
    = Ok (names, dk) ->
  names = map fst dk /\
  (forall x, In x dk -> batch_write root phantom d x) /\
  (forall e, In e (enumerate doses) ->
     exists ct fnames w,
       dose_iteration octave tmpl root fk verbose kw doses phantom pid d
         (patient_name d phantom) e = Ok (ct, fnames, w) /\
       incl w dk).
Proof.
  unfold diameter_iteration. intros H.
  apply bind_Ok in H as (sweep & Hsweep & H).
  apply mapM_Ok in Hsweep.
  change (Py.repr_div10 d ++ lit " cm " ++ phantom)
    with (patient_name d phantom) in Hsweep.
  destruct (sweep_files doses phantom pid d _ _ Hsweep) as (S1 & S2 & S3).
  destruct (last (map (fun r => Some (fst (fst r))) sweep) None) as [ct0|] eqn:El;
    [|discriminate].
  assert (patientname ct0 = patient_name d phantom /\ patient_diameter ct0 = d)
    as [Hn0 Hd0].
  { rewrite <- (map_map (fun r => fst (fst r)) Some) in El.
    apply last_some_In in El. apply in_map_iff in El as (r & <- & Hr). auto. }
  apply bind_Ok in H as (ct1 & Hrun & H).
  apply run_inv in Hrun as [r ->].
  apply bind_Ok in H as ([[ct2 n1] d1] & Hw1 & H).
  apply bind_Ok in H as ([[ct3 n2] d2] & Hw2 & H).
  injection H as <- <-.
  cbn [set_results set_noise_free patientname] in Hw1. rewrite Hn0 in Hw1.
  apply auxiliary_files in Hw1 as (Hf1 & Hn2 & Hd2 & Hb1);
    [|exact Hn0 | exact Hd0].
  rewrite Hn2 in Hw2.
  apply auxiliary_files in Hw2 as (Hf2 & _ & _ & Hb2); [|assumption..].
  split; [|split].
  - now rewrite !map_app, S1, Hf1, Hf2.
  - intros x Hx. apply in_app_or in Hx as [Hx|Hx]; [auto|].
    apply in_app_or in Hx as [Hx|Hx]; auto.
  - intros e He.
    destruct (Forall2_In_l _ _ _ e Hsweep He) as ([[ct fnames] w] & Hr & Hdose).
    exists ct, fnames, w. split; [assumption|].
    intros x Hx. apply in_or_app. left.
    apply in_concat. exists w. split; [|assumption].
    apply in_map_iff. exists (ct, fnames, w). now split.
Qed.

(** The whole batch: the table lists, file by file, what the extractor
    reads from the files written. *)
Lemma run_batch_sim_inv model diameter full_dose dose_level metadata disk :
  run_batch_sim octave tmpl root fk verbose kw model diameter full_dose
    dose_level = Ok (metadata, disk) ->
  Forall2 (fun f r => dicom_meta_to_dataframe disk f = Ok r)
    (map fst disk) metadata /\
  (forall x, In x disk ->
     exists phantom d, In phantom model /\ In d diameter /\
                       batch_write root phantom d x) /\
  (forall phantom d e,
     In phantom model -> In d diameter ->
     In e (enumerate (map (Qmult full_dose) dose_level)) ->
     exists pid ct fnames w,
       dose_iteration octave tmpl root fk verbose kw
         (map (Qmult full_dose) dose_level) phantom pid d
         (patient_name d phantom) e = Ok (ct, fnames, w) /\
       incl w disk).
Proof.
  unfold run_batch_sim. intros H.
  apply bind_Ok in H as (per & Hper & H). cbv zeta in H.
  apply bind_Ok in H as (rows & Hrows & H).
  assert (rows = metadata /\ concat (map snd (concat per)) = disk) as [-> Hdisk].
  { destruct rows; [discriminate|]. injection H as <- <-. now split. }
  apply mapM_Ok in Hper.
  assert (Hall : forall phantom, In phantom model ->
            exists rs, In rs per /\
              Forall2 (fun e r => diameter_iteration octave tmpl root fk verbose kw
                                    (map (Qmult full_dose) dose_level) phantom e
                                  = Ok r) (enumerate diameter) rs).
  { intros phantom Hph.
    destruct (Forall2_In_l _ _ _ phantom Hper Hph) as (rs & Hrs & Hm).
    exists rs. split; [assumption|]. now apply mapM_Ok. }
  assert (Hinv : forall x, In x (concat (map snd (concat per))) ->
            exists phantom d, In phantom model /\ In d diameter /\
                              batch_write root phantom d x).
  { intros x Hx. apply in_concat in Hx as (dk & Hdk & Hx).
    apply in_map_iff in Hdk as ([names dk'] & E & Hr). cbn [snd] in E. subst dk'.
    apply in_concat in Hr as (rs & Hrs & Hr).
    destruct (Forall2_In_r _ _ _ rs Hper Hrs) as (phantom & Hph & Hm).
    apply mapM_Ok in Hm.
    destruct (Forall2_In_r _ _ _ _ Hm Hr) as ([pid d] & He & Hd).
    apply diameter_iteration_inv in Hd as (_ & Hb & _).
    exists phantom, d. split; [assumption|].
    split; [eapply enumerate_from_In; exact He | auto]. }
  assert (Hnames : concat (map fst (concat per)) = map fst (concat (map snd (concat per)))).
  { assert (forall r, In r (concat per) -> fst r = map fst (snd r)) as Hr.
    { intros [names dk] Hr. apply in_concat in Hr as (rs & Hrs & Hr).
      destruct (Forall2_In_r _ _ _ rs Hper Hrs) as (phantom & Hph & Hm).
      apply mapM_Ok in Hm.
      destruct (Forall2_In_r _ _ _ _ Hm Hr) as ([pid d] & He & Hd).
      now apply diameter_iteration_inv in Hd as (-> & _). }
    revert Hr. generalize (concat per). intros l.
    induction l as [|r l IH]; intros Hr; [reflexivity|].
    cbn [map concat]. rewrite map_app, IH by (intros; apply Hr; now right).
    now rewrite (Hr r) by now left. }
  rewrite Hnames, Hdisk in Hrows. rewrite Hdisk in Hinv.
  split; [now apply mapM_Ok|]. split; [assumption|].
  intros phantom d e Hph Hd He.
  destruct (Hall phantom Hph) as (rs & Hrs & Hm).
  destruct (In_enumerate_from diameter 0 d Hd) as [pid Hpid].
  destruct (Forall2_In_l _ _ _ (pid, d) Hm Hpid) as ([names dk] & Hr & Hdi).
  apply diameter_iteration_inv in Hdi as (_ & _ & Hsw).
  destruct (Hsw e He) as (ct & fnames & w & Hdose & Hincl).
  exists pid, ct, fnames, w. split; [assumption|].
  intros x Hx. rewrite <- Hdisk. apply in_concat. exists dk.
  split; [|auto]. apply in_map_iff. exists (names, dk). split; [reflexivity|].
  apply in_concat. eauto.
Qed.

Lemma read_file_In (disk : writes) p :
  In p (map fst disk) ->
  exists dcm, read_file disk p = Ok dcm /\ In (p, dcm) disk.
Proof.
  intros Hp. unfold read_file.
  match goal with
  | |- context [find ?f ?l] => destruct (find f l) as [[q dcm]|] eqn:E
  end.
  - apply find_some in E as [Hin Hq]. cbn [fst] in Hq.
    destruct (list_eq_dec (list_eq_dec ascii_dec) q p) as [->|]; [|discriminate].
    exists dcm. split; [reflexivity|]. now apply in_rev.
  - exfalso. apply in_map_iff in Hp as ([q dcm] & Hq & Hin). cbn [fst] in Hq.
    subst q. apply in_rev in Hin.
    pose proof (find_none _ _ E _ Hin) as Hn. cbn [fst] in Hn.
    now destruct (list_eq_dec (list_eq_dec ascii_dec) p p).
Qed.






End Loops.

(** [array_max] is the greatest element. *)
Lemma array_max_spec l m :
  array_max l = Some m -> In m l /\ forall x, In x l -> x <= m.
Proof.
  destruct l as [|a l]; [discriminate|]. cbn [array_max].
  intros H. injection H as <-.
  assert (forall l a,
            let m := fold_left (fun m y : Q => if Qle_bool m y then y else m) l a in
            (m = a \/ In m l) /\ a <= m /\ forall x, In x l -> x <= m) as Hfold.
  { clear. induction l as [|y l IH]; intros a; cbn [fold_left].
    - split; [now left|]. split; [apply Qle_refl | intros x []].
    - destruct (Qle_bool a y) eqn:E.
      + apply Qle_bool_iff in E. destruct (IH y) as (H1 & H2 & H3).
        split; [right; destruct H1 as [->|H1]; [now left | now right]|].
        split; [eapply Qle_trans; eassumption|].
        intros x [<-|Hx]; auto.
      + assert (y <= a) as Hya.
        { apply Qlt_le_weak, Qnot_le_lt. intros H. apply Qle_bool_iff in H.
          congruence. }
        destruct (IH a) as (H1 & H2 & H3).
        split; [destruct H1 as [->|H1]; [now left | right; now right]|].
        split; [assumption|].
        intros x [<-|Hx]; [eapply Qle_trans; eassumption | auto]. }
  destruct (Hfold l a) as (H1 & H2 & H3).
  split.
  - destruct H1 as [->|H1]; [now left | now right].
  - intros x [<-|Hx]; auto.
Qed.

End BatchFacts.







(** * Further properties of the code *)

(** ** The simulation wrapper and the constructor *)

(** X2: A numeric lesion diameter other than zero never reaches Octave: the
    second check evaluates [len(lesion_diameter)] whatever the phantom is,
    and a number has no length.  This includes the CTP404 phantom, for
    which a number is the documented form. *)
Theorem mirt_sim_number_raises_type_error
    phantom pd rd rfov i0 g noise n v verbose :
  is_number v = true -> truthy v = true ->
  mirt_sim phantom pd rd rfov i0 g noise n v verbose = Raise TypeError.
Proof.
  intros Hnum Htrue. unfold mirt_sim.
  assert (match v with LArray l => LList l | v0 => v0 end = v) as ->
    by (destruct v; try reflexivity; discriminate).
  unfold check_lesion. rewrite Htrue, Hnum.
  assert (forall b, Z.land (int_of_bool b) (Z.lnot (int_of_bool true)) = 0%Z)
    as Hland by (intros []; reflexivity).
  rewrite Hland. cbn [Z.eqb negb bind].
  destruct v; try discriminate; reflexivity.
Qed.

Lemma mirt_sim_number_raises_type_error_witness :
  mirt_sim (lit "CTP404") 200 200 340 300000 default_geometry true 1
    (LInt 5) true = Raise TypeError /\
  mirt_sim (lit "UNIFORM") 200 200 340 300000 default_geometry true 1
    (LFloat 0.5) false = Raise TypeError.
Proof.
  split; apply mirt_sim_number_raises_type_error; reflexivity.
Defined.

(** X3: With a list as lesion diameter the wrapper reaches Octave exactly when
    the list is empty, or the phantom is no casing of CTP404 and, if it is
    spelled CCT189 (possibly through an alias), the list has four
    entries; in every other case it raises [ValueError]. *)
Theorem mirt_sim_list_outcome phantom pd rd rfov i0 g noise n l verbose :
  ((exists c, mirt_sim phantom pd rd rfov i0 g noise n (LList l) verbose = Ok c)
   <-> l = [] \/
       (Py.upper (normalise phantom) <> lit "CTP404" /\
        (normalise phantom = lit "CCT189" -> length l = 4%nat))) /\
  ((forall c, mirt_sim phantom pd rd rfov i0 g noise n (LList l) verbose <> Ok c)
   -> mirt_sim phantom pd rd rfov i0 g noise n (LList l) verbose
      = Raise ValueError).
Proof.
  unfold mirt_sim, check_lesion. destruct l as [|x l].
  - cbn. split; [|intros H; now destruct (H _ eq_refl)].
    split; [intros _; now left | eauto].
  - cbn [truthy is_number int_of_bool Z.lnot len].
    destruct (Py.eqb (Py.upper (normalise phantom)) (lit "CTP404")) eqn:E1.
    + cbn. apply SimFacts.eqb_eq in E1. split; [|reflexivity].
      split; [intros [c H]; discriminate|].
      intros [H|[H _]]; [discriminate | contradiction].
    + apply SimFacts.eqb_neq in E1. cbn [int_of_bool Z.land Z.eqb negb bind].
      destruct (Py.eqb (normalise phantom) (lit "CCT189")) eqn:E2.
      * apply SimFacts.eqb_eq in E2.
        destruct (Z.eqb_spec (Z.of_nat (length (x :: l))) 4) as [E3|E3];
          cbn [negb andb bind].
        -- split; [|intros H; now destruct (H _ eq_refl)].
           split; [intros _; right; split; [assumption | intros _; lia]|eauto].
        -- split; [|reflexivity].
           split; [intros [c H]; discriminate|].
           intros [H|[_ H]]; [discriminate|]. specialize (H E2). lia.
      * apply SimFacts.eqb_neq in E2. cbn [andb bind].
        split; [|intros H; now destruct (H _ eq_refl)].
        split; [intros _; right; split; [assumption | contradiction] | eauto].
Qed.

Lemma mirt_sim_list_outcome_witness :
  (exists c, mirt_sim (lit "UNIFORM") 200 200 340 300000 default_geometry
               true 1 (LList [5; 6]) true = Ok c) /\
  mirt_sim (lit "MITA") 200 200 340 300000 default_geometry true 1
    (LList [5; 6; 7]) true = Raise ValueError.
Proof.
  split.
  - apply (proj1 (mirt_sim_list_outcome (lit "UNIFORM") 200 200 340 300000
                    default_geometry true 1 [5; 6] true)).
    right. split; [vm_compute; discriminate | vm_compute; discriminate].
  - apply (proj2 (mirt_sim_list_outcome (lit "MITA") 200 200 340 300000
                    default_geometry true 1 [5; 6; 7] true)).
    intros c H.
    assert (exists c', mirt_sim (lit "MITA") 200 200 340 300000
                         default_geometry true 1 (LList [5; 6; 7]) true
                       = Ok c') as H' by eauto.
    apply (proj1 (mirt_sim_list_outcome (lit "MITA") 200 200 340 300000
                    default_geometry true 1 [5; 6; 7] true)) in H'
      as [H'|[_ H']]; [discriminate|].
    specialize (H' eq_refl). discriminate.
Defined.

(** X4: The constructor turns an alias into [CCT189], but only in the exact
    spelling of the alias: any other casing of an alias is rejected, while
    every casing of a supported kind is accepted.  What it stores always
    upper-cases to a supported kind, and the new object holds no
    volumes. *)
Theorem CTobj_init_aliases :
  (forall k, Py.mem (k_phantom k) aliases = true ->
     exists ct, CTobj_init k = Ok ct /\ phantom ct = lit "CCT189") /\
  (forall k, Py.mem (Py.upper (k_phantom k)) aliases = true ->
     Py.mem (k_phantom k) aliases = false ->
     CTobj_init k = Raise ValueError) /\
  (forall k ct, CTobj_init k = Ok ct ->
     Py.mem (Py.upper (phantom ct)) options = true /\
     phantom ct = normalise (k_phantom k) /\
     recon ct = None /\ projections ct = None /\ groundtruth ct = None) /\
  (forall k, Py.mem (Py.upper (normalise (k_phantom k))) options = false ->
     CTobj_init k = Raise ValueError).
Proof.
  split; [|split; [|split]].
  - intros k Hk. unfold CTobj_init, normalise. rewrite Hk. cbn.
    eexists. split; reflexivity.
  - intros k Hup Hk. unfold CTobj_init, normalise. rewrite Hk.
    apply SimFacts.mem_In in Hup. simpl in Hup.
    destruct Hup as [<-|[<-|[<-|[<-|[]]]]]; reflexivity.
  - intros k ct H. unfold CTobj_init in H.
    destruct (Py.mem (Py.upper (normalise (k_phantom k))) options) eqn:E;
      [|discriminate].
    injection H as <-. cbn. now repeat split.
  - intros k Hk. unfold CTobj_init. now rewrite Hk.
Qed.

Lemma CTobj_init_aliases_witness :
  (exists ct, CTobj_init (example_args 200 0 0 1) = Ok ct /\
              Py.mem (Py.upper (phantom ct)) options = true) /\
  forall d, CTobj_init
    {| k_phantom := lit "mita-lcd"; k_patient_diameter := d;
       k_reference_diameter := 200; k_reference_fov := 340; k_I0 := 300000;
       k_geom := default_geometry; k_add_noise := true; k_fov := 340;
       k_nsims := 1; k_lesion_diameter := LBool false; k_age := 0;
       k_patientname := []; k_patientid := 0; k_studyname := [];
       k_studyid := 0; k_seriesid := 0 |} = Raise ValueError.
Proof.
  destruct CTobj_init_aliases as (_ & H2 & H3 & _). split.
  - eexists. split; [reflexivity|].
    apply (H3 (example_args 200 0 0 1)). reflexivity.
  - intros d. apply H2; reflexivity.
Defined.
(** ** Persisting a volume *)

(** X5: Writing fails before anything is written when there is nothing to
    write or the reconstruction does not have [nsims] slices; in
    particular an object that has not been run cannot be written. *)
Theorem write_to_dicom_refuses tmpl self fname gt :
  (recon self = None ->
   write_to_dicom tmpl self fname gt = Raise AttributeError) /\
  (forall r, recon self = Some r ->
     Z.of_nat (length (slices r)) <> nsims self ->
     write_to_dicom tmpl self fname gt = Raise AssertionError) /\
  (forall k, CTobj_init k = Ok self ->
     write_to_dicom tmpl self fname gt = Raise AttributeError).
Proof.
  assert (Hnone : recon self = None ->
                  write_to_dicom tmpl self fname gt = Raise AttributeError).
  { intros H. unfold write_to_dicom. now rewrite H. }
  split; [exact Hnone|]. split.
  - intros r Hr Hn. unfold write_to_dicom. rewrite Hr. cbn [of_option bind].
    cbn [set_recon nsims].
    destruct (Z.eqb_spec (Z.of_nat (length (slices r))) (nsims self));
      [contradiction | reflexivity].
  - intros k Hk. apply Hnone. unfold CTobj_init in Hk.
    destruct (negb (Py.mem (Py.upper (normalise (k_phantom k))) options));
      [discriminate|].
    now injection Hk as <-.
Qed.

Lemma write_to_dicom_refuses_witness :
  (exists ct, CTobj_init default_args = Ok ct /\
     write_to_dicom CT_small ct [lit "out"; lit "image.dcm"] false
     = Raise AttributeError) /\
  (exists ct, scanned (example_args 200 0 0 2) = Ok ct /\
     write_to_dicom CT_small (set_noise_free ct) [lit "out"; lit "image.dcm"]
       false = Raise AssertionError).
Proof.
  split.
  - eexists. split; [reflexivity|].
    exact (proj2 (proj2 (write_to_dicom_refuses CT_small _
                           [lit "out"; lit "image.dcm"] false))
             default_args eq_refl).
  - let v := eval vm_compute in (scanned (example_args 200 0 0 2)) in
    match v with Ok ?c => exists c end.
    split; [vm_compute; reflexivity|].
    match goal with
    | |- write_to_dicom _ ?s _ _ = _ =>
        apply (proj1 (proj2 (write_to_dicom_refuses CT_small s
                               [lit "out"; lit "image.dcm"] false))
                 (Arr3 [blank; blank]) eq_refl)
    end.
    vm_compute. discriminate.
Defined.

Lemma sop_segments_distinct_in_call_witness :
  exists ct self' fnames w0 w1,
    scanned (example_args 200 1 0 2) = Ok ct /\
    write_to_dicom CT_small ct [lit "out"; lit "image.dcm"] false
      = Ok (self', fnames, [w0; w1]) /\
    final_segment (SOPInstanceUID (snd w0)) <>
    final_segment (SOPInstanceUID (snd w1)).
Proof.
  let v := eval vm_compute in (scanned (example_args 200 1 0 2)) in
  match v with Ok ?c => exists c end.
  match goal with
  | |- exists s n a b, _ /\ write_to_dicom ?t ?ct ?f ?g = _ /\ _ =>
      let v := eval vm_compute in (write_to_dicom t ct f g) in
      match v with
      | Ok (?s, ?n, [?a; ?b]) =>
          exists s, n, a, b;
          assert (write_to_dicom t ct f g = Ok (s, n, [a; b])) as E
            by (vm_compute; reflexivity)
      end
  end.
  split; [vm_compute; reflexivity|]. split; [exact E|].
  apply (sop_segments_distinct_in_call _ _ _ _ _ _ _ 12322%Z 0%nat 1%nat _ _ E);
    [vm_compute; reflexivity | vm_compute; discriminate
    | reflexivity | reflexivity | discriminate].
Defined.

(** X6: The UIDs of a file depend on nothing but the template, the study and
    series identifiers and the slice index: two calls whose objects have
    the same study identifier give their files the same series and study
    UIDs, and if the sums of study and series identifier agree as well,
    the files of the same slice index carry the same SOP and media-storage
    UIDs, whatever the patient, phantom, diameter or file name is. *)
Theorem uids_ignore_patient tmpl s1 f1 g1 s1' n1 d1 s2 f2 g2 s2' n2 d2 :
  write_to_dicom tmpl s1 f1 g1 = Ok (s1', n1, d1) ->
  write_to_dicom tmpl s2 f2 g2 = Ok (s2', n2, d2) ->
  (studyid s1 = studyid s2 ->
   forall i j w1 w2, nth_error d1 i = Some w1 -> nth_error d2 j = Some w2 ->
     SeriesInstanceUID (snd w1) = SeriesInstanceUID (snd w2) /\
     StudyInstanceUID (snd w1) = StudyInstanceUID (snd w2)) /\
  ((studyid s1 + seriesid s1 = studyid s2 + seriesid s2)%Z ->
   forall i w1 w2, nth_error d1 i = Some w1 -> nth_error d2 i = Some w2 ->
     SOPInstanceUID (snd w1) = SOPInstanceUID (snd w2) /\
     MediaStorageSOPInstanceUID (snd w1) = MediaStorageSOPInstanceUID (snd w2)).
Proof.
  intros H1 H2.
  apply PersistFacts.write_to_dicom_inv in H1
    as (r1 & v1 & su1 & st1 & _ & _ & _ & Hsu1 & Hst1 & _ & _ & _ & Hw1).
  apply PersistFacts.write_to_dicom_inv in H2
    as (r2 & v2 & su2 & st2 & _ & _ & _ & Hsu2 & Hst2 & _ & _ & _ & Hw2).
  split.
  - intros E i j w1 w2 Hi Hj.
    destruct (Hw1 i w1 Hi) as (_ & Hh1 & _).
    destruct (Hw2 j w2 Hj) as (_ & Hh2 & _).
    destruct Hh1 as (_ & _ & _ & _ & _ & _ & _ & Ha1 & Hb1).
    destruct Hh2 as (_ & _ & _ & _ & _ & _ & _ & Ha2 & Hb2).
    cbn [header SeriesInstanceUID StudyInstanceUID] in Ha1, Hb1, Ha2, Hb2.
    rewrite E in Hsu1, Hst1. split; congruence.
  - intros E i. induction i as [|i IH]; intros w1 w2 Hi Hj.
    + destruct (Hw1 _ _ Hi) as (_ & _ & _ & _ & _ & Hc1 & Hm1).
      destruct (Hw2 _ _ Hj) as (_ & _ & _ & _ & _ & Hc2 & Hm2).
      cbn [prev_ds] in Hc1, Hm1, Hc2, Hm2.
      replace (Z.of_nat 0 + studyid s1 + seriesid s1)%Z
        with (Z.of_nat 0 + studyid s2 + seriesid s2)%Z in Hc1, Hm1 by lia.
      split; congruence.
    + destruct (Hw1 _ _ Hi) as (_ & _ & _ & _ & _ & Hc1 & Hm1).
      destruct (Hw2 _ _ Hj) as (_ & _ & _ & _ & _ & Hc2 & Hm2).
      cbn [prev_ds] in Hc1, Hm1, Hc2, Hm2.
      destruct (nth_error d1 i) as [p1|] eqn:Hp1;
        [|apply nth_error_None in Hp1;
          apply PersistFacts.nth_error_before in Hi; lia].
      destruct (nth_error d2 i) as [p2|] eqn:Hp2;
        [|apply nth_error_None in Hp2;
          apply PersistFacts.nth_error_before in Hj; lia].
      assert (forall (d : writes) p, nth_error d i = Some p ->
                nth i (map snd d) tmpl = snd p) as Hnth.
      { intros d p Hp. apply nth_error_nth.
        now rewrite nth_error_map, Hp. }
      rewrite (Hnth _ _ Hp1) in Hc1, Hm1. rewrite (Hnth _ _ Hp2) in Hc2, Hm2.
      destruct (IH p1 p2 eq_refl eq_refl) as [Es Em].
      rewrite Es in Hc1. rewrite Em in Hm1.
      replace (Z.of_nat (S i) + studyid s1 + seriesid s1)%Z
        with (Z.of_nat (S i) + studyid s2 + seriesid s2)%Z in Hc1, Hm1 by lia.
      split; congruence.
Qed.

Lemma uids_ignore_patient_witness :
  exists ct1 ct2 s1 n1 w1 s2 n2 w2,
    scanned (example_args 200 0 0 1) = Ok ct1 /\
    scanned (example_args 150 0 0 1) = Ok ct2 /\
    write_to_dicom CT_small ct1 [lit "out"; lit "a.dcm"] false
      = Ok (s1, n1, [w1]) /\
    write_to_dicom CT_small ct2 [lit "out"; lit "b.dcm"] false
      = Ok (s2, n2, [w2]) /\
    PatientName (snd w1) <> PatientName (snd w2) /\
    SOPInstanceUID (snd w1) = SOPInstanceUID (snd w2) /\
    SeriesInstanceUID (snd w1) = SeriesInstanceUID (snd w2).
Proof.
  let v := eval vm_compute in (scanned (example_args 200 0 0 1)) in
  match v with Ok ?c => exists c end.
  let v := eval vm_compute in (scanned (example_args 150 0 0 1)) in
  match v with Ok ?c => exists c end.
  match goal with
  | |- exists s1 n1 w1 s2 n2 w2, _ /\ _ /\ write_to_dicom ?t ?c1 ?f1 ?g1 = _ /\
         write_to_dicom ?t ?c2 ?f2 ?g2 = _ /\ _ =>
      let v1 := eval vm_compute in (write_to_dicom t c1 f1 g1) in
      let v2 := eval vm_compute in (write_to_dicom t c2 f2 g2) in
      match v1 with
      | Ok (?s1, ?n1, [?w1]) =>
          match v2 with
          | Ok (?s2, ?n2, [?w2]) =>
              exists s1, n1, w1, s2, n2, w2;
              assert (write_to_dicom t c1 f1 g1 = Ok (s1, n1, [w1])) as E1
                by (vm_compute; reflexivity);
              assert (write_to_dicom t c2 f2 g2 = Ok (s2, n2, [w2])) as E2
                by (vm_compute; reflexivity)
          end
      end
  end.
  split; [vm_compute; reflexivity|]. split; [vm_compute; reflexivity|].
  split; [exact E1|]. split; [exact E2|].
  split; [vm_compute; discriminate|].
  destruct (uids_ignore_patient _ _ _ _ _ _ _ _ _ _ _ _ _ E1 E2) as [Hs Hp].
  split.
  - exact (proj1 (Hp eq_refl 0%nat _ _ eq_refl eq_refl)).
  - exact (proj1 (Hs eq_refl 0%nat 0%nat _ _ eq_refl eq_refl)).
Defined.

(** X7: With more than one repeat the slices of a call go to pairwise distinct
    files, so no slice overwrites another; with one repeat (or none) every
    slice of the volume written goes to the file name given, so that of a
    ground truth with several slices only the last one stays on disk. *)
Theorem slice_files_distinct tmpl self fname gt self' fnames disk :
  write_to_dicom tmpl self fname gt = Ok (self', fnames, disk) ->
  ((1 < nsims self)%Z -> NoDup fnames) /\
  ((nsims self <= 1)%Z ->
   (forall p, In p fnames -> p = fname) /\
   (disk <> [] ->
    read_file disk fname = Ok (snd (last disk (fname, tmpl))))).
Proof.
  intros H.
  apply PersistFacts.write_to_dicom_inv in H
    as (r & vol & su & st & _ & _ & _ & _ & _ & _ & -> & _ & Hws).
  split.
  - intros Hn. apply NoDup_nth_error. intros i j Hi E.
    rewrite length_map in Hi. rewrite !nth_error_map in E.
    destruct (nth_error disk i) as [w|] eqn:Hw;
      [|apply nth_error_None in Hw; lia].
    destruct (nth_error disk j) as [w'|] eqn:Hw'; [|discriminate].
    injection E as E.
    destruct (Hws i w Hw) as (Hp & _). destruct (Hws j w' Hw') as (Hp' & _).
    rewrite Hp, Hp' in E. unfold slice_fname in E.
    destruct (Z.ltb_spec 1 (nsims self)) as [_|]; [|lia].
    unfold joinpath in E. apply app_inj_tail in E as [_ E].
    apply app_inv_head in E. apply app_inv_head in E. apply app_inv_tail in E.
    assert (Py.int_of_str (Py.fmt_03d (Z.of_nat i))
            = Py.int_of_str (Py.fmt_03d (Z.of_nat j))) as E' by now rewrite E.
    rewrite !PyFacts.int_of_fmt_03d in E'. injection E' as E'. lia.
  - intros Hn.
    assert (Hall : forall w, In w disk -> fst w = fname).
    { intros w Hw. apply In_nth_error in Hw as [i Hi].
      destruct (Hws i w Hi) as (Hp & _). rewrite Hp. unfold slice_fname.
      destruct (Z.ltb_spec 1 (nsims self)); [lia | reflexivity]. }
    split.
    + intros p Hp. apply in_map_iff in Hp as (w & <- & Hw). now apply Hall.
    + intros Hne. unfold read_file.
      destruct (exists_last Hne) as (front & w & ->).
      rewrite rev_app_distr, last_last. cbn [rev app find].
      assert (fst w = fname) as Hw
        by (apply Hall, in_or_app; right; now left).
      match goal with
      | |- context [list_eq_dec ?a ?b ?c] => destruct (list_eq_dec a b c)
      end; [reflexivity | contradiction].
Qed.

Lemma slice_files_distinct_witness :
  exists ct self' fnames disk,
    scanned (example_args 200 0 0 2) = Ok ct /\
    write_to_dicom CT_small ct [lit "out"; lit "image.dcm"] false
      = Ok (self', fnames, disk) /\
    length fnames = 2%nat /\ NoDup fnames.
Proof.
  let v := eval vm_compute in (scanned (example_args 200 0 0 2)) in
  match v with Ok ?c => exists c end.
  match goal with
  | |- exists s n d, _ /\ write_to_dicom ?t ?ct ?f ?g = _ /\ _ =>
      let v := eval vm_compute in (write_to_dicom t ct f g) in
      match v with
      | Ok (?s, ?n, ?d) =>
          exists s, n, d;
          assert (write_to_dicom t ct f g = Ok (s, n, d)) as E
            by (vm_compute; reflexivity)
      end
  end.
  split; [vm_compute; reflexivity|]. split; [exact E|].
  split; [reflexivity|].
  apply (proj1 (slice_files_distinct _ _ _ _ _ _ _ E)). cbn [nsims]. lia.
Defined.



(** X9: Writing replaces a two-dimensional reconstruction by its one-slice
    stack and changes nothing else of the object, so a second call with
    the same arguments returns the same names and writes the same
    files. *)
Theorem write_to_dicom_again tmpl self fname gt self' fnames disk :
  write_to_dicom tmpl self fname gt = Ok (self', fnames, disk) ->
  write_to_dicom tmpl self' fname gt = Ok (self', fnames, disk) /\
  (exists r, recon self = Some r /\ recon self' = Some (Arr3 (slices r))) /\
  nsims self' = nsims self /\ groundtruth self' = groundtruth self /\
  patientname self' = patientname self /\ studyid self' = studyid self.
Proof.
  intros H. pose proof H as H0.
  apply PersistFacts.write_to_dicom_inv in H0
    as (r & vol & su & st & Hr & _ & _ & _ & _ & -> & _).
  split; [|split; [exists r; now split | now repeat split]].
  rewrite <- H. unfold write_to_dicom. rewrite Hr.
  cbn [set_recon recon of_option bind slices]. reflexivity.
Qed.

Lemma write_to_dicom_again_witness :
  exists ct self' fnames disk,
    scanned (example_args 200 0 0 1) = Ok ct /\
    write_to_dicom CT_small ct [lit "out"; lit "image.dcm"] true
      = Ok (self', fnames, disk) /\
    write_to_dicom CT_small self' [lit "out"; lit "image.dcm"] true
      = Ok (self', fnames, disk).
Proof.
  let v := eval vm_compute in (scanned (example_args 200 0 0 1)) in
  match v with Ok ?c => exists c end.
  match goal with
  | |- exists s n d, _ /\ write_to_dicom ?t ?ct ?f ?g = _ /\ _ =>
      let v := eval vm_compute in (write_to_dicom t ct f g) in
      match v with
      | Ok (?s, ?n, ?d) =>
          exists s, n, d;
          assert (write_to_dicom t ct f g = Ok (s, n, d)) as E
            by (vm_compute; reflexivity)
      end
  end.
  split; [vm_compute; reflexivity|]. split; [exact E|].
  exact (proj1 (write_to_dicom_again _ _ _ _ _ _ _ E)).
Defined.

(** ** Deriving a UID *)

(** X10: When the text of the final segment occurs nowhere else in the UID, the
    derivation changes the final segment only: the segments before it are
    kept and the last one becomes the decimal text of the sum.  (An
    earlier occurrence of that text would be replaced as well.)  Two
    derivations in a row end in the same segment as one derivation with
    the sum of the offsets, and a UID whose final segment [int] rejects
    cannot be derived from. *)
Theorem offset_uid_final_segment_only :
  (forall pre e n off,
     ~ In "."%char e -> Py.int_of_str e = Ok n -> Py.contains e pre = false ->
     offset_uid (pre ++ "."%char :: e) off
     = Ok (pre ++ "."%char :: Py.str_of_int (n + off))) /\
  (forall uid a b u1 u2,
     offset_uid uid a = Ok u1 -> offset_uid u1 b = Ok u2 ->
     exists u3, offset_uid uid (a + b) = Ok u3 /\
                final_segment u3 = final_segment u2) /\
  (forall uid off x,
     Py.int_of_str (final_segment uid) = Raise x ->
     offset_uid uid off = Raise x).
Proof.
  split; [|split].
  - intros pre e n off Hdot Hn Hpre.
    pose proof (UidFacts.int_of_str_nonempty _ _ Hn) as Hne.
    unfold offset_uid. rewrite (UidFacts.final_segment_tail pre e Hdot), Hn.
    cbn [bind]. f_equal.
    rewrite PyFacts.replace_eq by assumption.
    rewrite <- (app_nil_r e) at 2.
    rewrite (PyFacts.partition_after "."%char e pre [] Hne Hdot Hpre).
    rewrite PyFacts.replace_nil by assumption.
    now rewrite app_nil_r, <- app_assoc.
  - intros uid a b u1 u2 H1 H2.
    destruct (UidFacts.offset_uid_inv _ _ _ H1) as [n Hn].
    destruct (UidFacts.offset_uid_final _ _ _ _ Hn H1) as [_ Hn1].
    destruct (UidFacts.offset_uid_final _ _ _ _ Hn1 H2) as [Hf2 _].
    destruct (UidFacts.offset_uid_ok uid (a + b) n Hn) as (u3 & H3 & _ & Hf3).
    exists u3. split; [assumption|]. rewrite Hf2, Hf3. f_equal. ring.
  - intros uid off x H. unfold offset_uid. now rewrite H.
Qed.

Lemma offset_uid_final_segment_only_witness :
  offset_uid (SOPInstanceUID CT_small) 5
  = Ok (lit "1.3.6.1.4.1.5962.1.1.1.1.1.20040119072730.12327") /\
  offset_uid (lit "1.2.") 1 = Raise ValueError.
Proof.
  split.
  - apply (proj1 offset_uid_final_segment_only
             (lit "1.3.6.1.4.1.5962.1.1.1.1.1.20040119072730") (lit "12322")
             12322%Z 5%Z).
    + simpl. intros H. repeat (destruct H as [H|H]; [discriminate|]).
      contradiction.
    + vm_compute. reflexivity.
    + vm_compute. reflexivity.
  - apply (proj2 (proj2 offset_uid_final_segment_only)). vm_compute.
    reflexivity.
Defined.

(** ** Age groups *)

Module AgeBands.
Import AgeFacts.
Local Open Scope R_scope.

Lemma exp_neg_below x : 5 <= x -> exp (- x) < / 32.
Proof.
  intros H. destruct (Req_dec x 5) as [->|Hne]; [apply exp_neg_5|].
  eapply Rlt_trans; [|apply exp_neg_5]. apply exp_increasing. lra.
Qed.

Lemma exp_neg_1_lower : / 3 <= exp (Ropp 1).
Proof.
  rewrite exp_Ropp. apply Rinv_le_contravar; [apply exp_pos | apply exp_le_3].
Qed.

Lemma exp_neg_2 : exp (Ropp 2) = exp (Ropp 1) * exp (Ropp 1).
Proof. rewrite <- exp_plus. f_equal. lra. Qed.

(** The thresholds between the groups are increasing. *)
Lemma thresholds :
  exists a1 a5 a12 a22,
    age_to_eff_diameter 1 = Ok a1 /\ age_to_eff_diameter 5 = Ok a5 /\
    age_to_eff_diameter 12 = Ok a12 /\ age_to_eff_diameter 22 = Ok a22 /\
    14 < a1 < 18 /\ 18.3 < a5 < 18.79 /\ 22.89 < a12 < 23.27 /\
    33.68 < a22 < 33.96.
Proof.
  do 4 eexists.
  split; [apply curve_value; lia|]. split; [apply curve_value; lia|].
  split; [apply curve_value; lia|]. split; [apply curve_value; lia|].
  split; [|split; [|split]].
  - rewrite sqrt_1. pose proof exp_neg_1. pose proof (exp_neg_pos 1). lra.
  - destruct (sqrt_bounds 5 2 2.3) as [H1 H2]; try lra.
    pose proof exp_neg_5. pose proof (exp_neg_pos 5). lra.
  - destruct (sqrt_bounds 12 3.4 3.5) as [H1 H2]; try lra.
    pose proof (exp_neg_below 12 ltac:(lra)). pose proof (exp_neg_pos 12). lra.
  - destruct (sqrt_bounds 22 4.69 4.7) as [H1 H2]; try lra.
    pose proof (exp_neg_below 22 ltac:(lra)). pose proof (exp_neg_pos 22). lra.
Qed.

(** The chain of tests as one case distinction on the thresholds. *)
Lemma subgroup_cases d a1 a5 a12 a22 :
  age_to_eff_diameter 1 = Ok a1 -> age_to_eff_diameter 5 = Ok a5 ->
  age_to_eff_diameter 12 = Ok a12 -> age_to_eff_diameter 22 = Ok a22 ->
  a1 < a5 -> a5 < a12 -> a12 < a22 ->
  pediatric_subgroup d =
  Ok (if Rlt_dec d a1 then newborn else
      if Rlt_dec d a5 then infant else
      if Rlt_dec d a12 then child else
      if Rlt_dec d a22 then adolescent else adult).
Proof.
  intros E1 E5 E12 E22 H1 H2 H3. unfold pediatric_subgroup.
  rewrite E1, E5, E12, E22. cbn [bind]. unfold Rltb, Rgeb.
  destruct (Rlt_dec d a1); [reflexivity|].
  destruct (Rge_dec d a1); [|lra].
  destruct (Rlt_dec d a5); [reflexivity|]. cbn [andb].
  destruct (Rge_dec d a5); [|lra].
  destruct (Rlt_dec d a12); [reflexivity|]. cbn [andb].
  destruct (Rge_dec d a12); [|lra].
  destruct (Rlt_dec d a22); reflexivity.
Qed.

End AgeBands.

(** X11: The classifier never raises and is monotone: a larger diameter never
    gets a younger group.  (The four thresholds, the curve at 1, 5, 12
    and 22 years, are increasing.) *)
Theorem pediatric_subgroup_monotone (d1 d2 : R) :
  (d1 <= d2)%R ->
  exists g1 g2,
    pediatric_subgroup d1 = Ok g1 /\ pediatric_subgroup d2 = Ok g2 /\
    (rank g1 <= rank g2)%Z.
Proof.
  intros H.
  destruct AgeBands.thresholds
    as (a1 & a5 & a12 & a22 & E1 & E5 & E12 & E22 & H1 & H5 & H12 & H22).
  rewrite (AgeBands.subgroup_cases d1 a1 a5 a12 a22),
    (AgeBands.subgroup_cases d2 a1 a5 a12 a22) by (assumption || lra).
  do 2 eexists. split; [reflexivity|]. split; [reflexivity|].
  destruct (Rlt_dec d1 a1), (Rlt_dec d1 a5), (Rlt_dec d1 a12),
    (Rlt_dec d1 a22), (Rlt_dec d2 a1), (Rlt_dec d2 a5), (Rlt_dec d2 a12),
    (Rlt_dec d2 a22); cbn [rank]; try lia; lra.
Qed.

Lemma pediatric_subgroup_monotone_witness :
  exists g1 g2,
    pediatric_subgroup 11.2 = Ok g1 /\ pediatric_subgroup 50 = Ok g2 /\
    (rank g1 <= rank g2)%Z.
Proof. apply pediatric_subgroup_monotone. lra. Defined.

(** X12: The groups in centimetres of effective diameter: up to 14 newborn,
    18 to 18.3 infant, 18.79 to 22.89 child, 23.27 to 33.68 adolescent,
    from 33.96 adult; every group is reached. *)
Theorem pediatric_subgroup_bands (d : R) :
  ((d <= 14)%R -> pediatric_subgroup d = Ok newborn) /\
  ((18 <= d <= 18.3)%R -> pediatric_subgroup d = Ok infant) /\
  ((18.79 <= d <= 22.89)%R -> pediatric_subgroup d = Ok child) /\
  ((23.27 <= d <= 33.68)%R -> pediatric_subgroup d = Ok adolescent) /\
  ((33.96 <= d)%R -> pediatric_subgroup d = Ok adult).
Proof.
  destruct AgeBands.thresholds
    as (a1 & a5 & a12 & a22 & E1 & E5 & E12 & E22 & H1 & H5 & H12 & H22).
  rewrite (AgeBands.subgroup_cases d a1 a5 a12 a22) by (assumption || lra).
  repeat split; intros H;
    destruct (Rlt_dec d a1), (Rlt_dec d a5), (Rlt_dec d a12), (Rlt_dec d a22);
    try reflexivity; lra.
Qed.

Lemma pediatric_subgroup_bands_witness :
  pediatric_subgroup 20 = Ok child /\ pediatric_subgroup 30 = Ok adolescent /\
  pediatric_subgroup 34 = Ok adult.
Proof.
  split; [|split].
  - apply (proj1 (proj2 (proj2 (pediatric_subgroup_bands 20)))). lra.
  - apply (proj1 (proj2 (proj2 (proj2 (pediatric_subgroup_bands 30))))). lra.
  - apply (proj2 (proj2 (proj2 (proj2 (pediatric_subgroup_bands 34))))). lra.
Defined.



(** X14: From a group to its representative age, to the diameter of the curve
    at that age, and back to a group: infant, adolescent and adult come
    back as themselves, but child does not, since its age, 12, is itself
    the threshold from which a diameter counts as adolescent. *)
Theorem representative_age_round_trip :
  (forall g, g = infant \/ g = adolescent \/ g = adult ->
     exists age v,
       subgroup_to_age g = inject_Z age /\
       age_to_eff_diameter age = Ok v /\ pediatric_subgroup v = Ok g) /\
  (exists v,
     subgroup_to_age child = inject_Z 12 /\
     age_to_eff_diameter 12 = Ok v /\ pediatric_subgroup v = Ok adolescent).
Proof.
  destruct AgeBands.thresholds
    as (a1 & a5 & a12 & a22 & E1 & E5 & E12 & E22 & H1 & H5 & H12 & H22).
  pose proof (fun d => AgeBands.subgroup_cases d a1 a5 a12 a22 E1 E5 E12 E22
                         ltac:(lra) ltac:(lra) ltac:(lra)) as Hcases.
  split.
  - intros g [->|[->| ->]].
    + exists 2%Z. eexists. split; [reflexivity|].
      split; [apply AgeFacts.curve_value; lia|]. rewrite Hcases.
      rewrite AgeFacts.curve_value in E1 by lia. injection E1 as E1.
      rewrite sqrt_1 in E1.
      destruct (AgeFacts.sqrt_bounds 2 1.41 1.42)%R as [S1 S2]; try lra.
      pose proof AgeBands.exp_neg_1_lower. pose proof AgeFacts.exp_neg_1.
      pose proof AgeBands.exp_neg_2 as E2.
      change (IZR 2) with 2%R. change (IZR 1) with 1%R in E1.
      set (e1 := exp (Ropp 1)) in *. set (e2 := exp (Ropp 2)) in *.
      set (s := sqrt 2) in *.
      assert (e1 - e2 >= / 6)%R by nra.
      assert (0 < e2)%R by (apply exp_pos).
      destruct (Rlt_dec _ a1); [lra|]. destruct (Rlt_dec _ a5); [reflexivity|lra].
    + exists 21%Z. eexists. split; [reflexivity|].
      split; [apply AgeFacts.curve_value; lia|]. rewrite Hcases.
      destruct (AgeFacts.sqrt_bounds 21 4.58 4.59)%R as [S1 S2]; try lra.
      pose proof (AgeBands.exp_neg_below 21 ltac:(lra)).
      pose proof (AgeFacts.exp_neg_pos 21).
      change (IZR 21) with 21%R.
      destruct (Rlt_dec _ a1); [lra|]. destruct (Rlt_dec _ a5); [lra|].
      destruct (Rlt_dec _ a12); [lra|].
      destruct (Rlt_dec _ a22); [reflexivity|lra].
    + exists 39%Z, 99.9%R. split; [reflexivity|]. split; [reflexivity|].
      rewrite Hcases.
      destruct (Rlt_dec _ a1); [lra|]. destruct (Rlt_dec _ a5); [lra|].
      destruct (Rlt_dec _ a12); [lra|].
      destruct (Rlt_dec _ a22); [lra|reflexivity].
  - exists a12. split; [reflexivity|]. split; [assumption|]. rewrite Hcases.
    destruct (Rlt_dec _ a1); [lra|]. destruct (Rlt_dec _ a5); [lra|].
    destruct (Rlt_dec _ a12); [lra|].
    destruct (Rlt_dec _ a22); [reflexivity|lra].
Qed.

Lemma representative_age_round_trip_witness :
  exists age v,
    subgroup_to_age infant = inject_Z age /\
    age_to_eff_diameter age = Ok v /\ pediatric_subgroup v = Ok infant.
Proof. apply (proj1 representative_age_round_trip). now left. Defined.

(** ** The batch *)

Module BatchEdge.

Lemma mapM_raise {A B} (f : A -> result B) x l e :
  f x = Raise e -> mapM f (x :: l) = Raise e.
Proof. intros H. cbn [mapM]. now rewrite H. Qed.

Lemma mapM_const_nil {A B} (l : list A) :
  exists rs : list (list B),
    mapM (fun _ : A => Ok (@nil B)) l = Ok rs /\ concat rs = [].
Proof.
  induction l as [|x l (rs & IH & Hc)]; [exists []; now split|].
  exists ([] :: rs). cbn [mapM bind]. rewrite IH. now split.
Qed.

End BatchEdge.

(** X15: A batch over no phantom or no diameter simulates nothing and fails
    with [ValueError] when the empty list of rows is concatenated; a batch
    with phantoms and diameters but no dose level fails with [NameError]
    (Python's [UnboundLocalError]) at the noise-free step of the first
    combination, because the dose loop never bound [ct]. *)
Theorem run_batch_sim_empty_lists octave tmpl root fk verbose kw
    model diameter full_dose dose_level p d :
  run_batch_sim octave tmpl root fk verbose kw [] diameter full_dose dose_level
    = Raise ValueError /\
  run_batch_sim octave tmpl root fk verbose kw model [] full_dose dose_level
    = Raise ValueError /\
  run_batch_sim octave tmpl root fk verbose kw (p :: model) (d :: diameter)
    full_dose [] = Raise NameError.
Proof.
  split; [reflexivity|]. split.
  - unfold run_batch_sim. cbn [enumerate enumerate_from mapM].
    destruct (BatchEdge.mapM_const_nil (B := list Path * writes) model)
      as (rs & -> & Hc).
    cbn [bind]. now rewrite Hc.
  - unfold run_batch_sim. cbn [map].
    erewrite BatchEdge.mapM_raise; [reflexivity|].
    unfold enumerate. cbn [enumerate_from].
    erewrite BatchEdge.mapM_raise; reflexivity.
Qed.

(** X16: When every dose of the batch is zero the relative dose is [nan], and
    the first combination fails with [ValueError] before anything is
    simulated. *)
Theorem run_batch_sim_zero_dose octave tmpl root fk verbose kw
    model diameter full_dose level dose_level p d :
  (forall x, In x (level :: dose_level) -> full_dose * x == 0) ->
  run_batch_sim octave tmpl root fk verbose kw (p :: model) (d :: diameter)
    full_dose (level :: dose_level) = Raise ValueError.
Proof.
  intros Hz. unfold run_batch_sim.
  erewrite BatchEdge.mapM_raise; [reflexivity|].
  unfold enumerate at 1. cbn [enumerate_from].
  erewrite BatchEdge.mapM_raise; [reflexivity|].
  unfold diameter_iteration. cbn [map]. unfold enumerate. cbn [enumerate_from].
  erewrite BatchEdge.mapM_raise; [reflexivity|].
  unfold dose_iteration, rel_dose_percent.
  destruct (array_max (full_dose * level :: map (Qmult full_dose) dose_level))
    as [m|] eqn:Em; [|discriminate].
  apply BatchFacts.array_max_spec in Em as [Hin _].
  assert (m == 0) as Hm.
  { change (In m (map (Qmult full_dose) (level :: dose_level))) in Hin.
    apply in_map_iff in Hin as (x & <- & Hx). now apply Hz. }
  apply Qeq_bool_iff in Hm. rewrite Hm.
  assert (Qeq_bool (full_dose * level) 0 = true) as ->
    by (apply Qeq_bool_iff, Hz; now left).
  reflexivity.
Qed.

Lemma run_batch_sim_zero_dose_witness :
  run_batch_sim blank_sim CT_small [lit "data"] (lit "fbp") true
    (example_args 200 0 0 1) [lit "CCT189"] [200%Z] 0 [1; 1 # 2]
  = Raise ValueError.
Proof.
  apply run_batch_sim_zero_dose. intros x _. apply Qmult_0_l.
Defined.

Module TableFacts.

(** What a row holds, whatever kind of file it describes. *)
Lemma dicom_meta_to_dataframe_inv disk fname r :
  dicom_meta_to_dataframe disk fname = Ok r ->
  r_file r = fname /\
  exists dcm,
    read_file disk fname = Ok dcm /\
    r_name r = PatientName dcm /\ r_patient_id r = PatientID dcm /\
    r_study_id r = StudyID dcm.
Proof.
  unfold dicom_meta_to_dataframe. intros H.
  apply bind_Ok in H as (dcm & Hdcm & H).
  apply bind_Ok in H as (g & _ & H).
  apply bind_Ok in H as (p1 & _ & H).
  apply bind_Ok in H as (p2 & _ & H).
  apply bind_Ok in H as (dia & _ & H).
  apply bind_Ok in H as ([[series dose] rep] & _ & H).
  injection H as <-. cbn. split; [reflexivity|].
  exists dcm. now repeat split.
Qed.

End TableFacts.

(** X17: The table of a batch that returns has one row per file name the calls
    returned, in the order of writing, and is not empty; each row names
    its file and is what the extractor reads from that file after the
    whole batch has been written, so a file written twice is described
    twice, both times by its last content. *)
Theorem metadata_rows octave tmpl root fk verbose kw model diameter
    full_dose dose_level metadata disk :
  run_batch_sim octave tmpl root fk verbose kw model diameter full_dose
    dose_level = Ok (metadata, disk) ->
  map r_file metadata = map fst disk /\
  metadata <> [] /\
  forall i r, nth_error metadata i = Some r ->
    dicom_meta_to_dataframe disk (r_file r) = Ok r /\
    exists x dcm,
      nth_error disk i = Some x /\ fst x = r_file r /\
      read_file disk (r_file r) = Ok dcm /\
      r_name r = PatientName dcm /\ r_patient_id r = PatientID dcm /\
      r_study_id r = StudyID dcm.
Proof.
  intros H. pose proof H as H0.
  apply BatchFacts.run_batch_sim_inv in H0 as (Hrows & _ & _).
  assert (Hfile : map r_file metadata = map fst disk).
  { clear H. revert Hrows. generalize (map fst disk). intros names Hrows.
    induction Hrows as [|f r names rows Hr _ IH]; [reflexivity|].
    cbn [map]. rewrite IH.
    now apply TableFacts.dicom_meta_to_dataframe_inv in Hr as [-> _]. }
  split; [assumption|]. split.
  - unfold run_batch_sim in H. apply bind_Ok in H as (per & _ & H).
    cbv zeta in H. apply bind_Ok in H as (rows & _ & H).
    destruct rows; [discriminate|]. injection H as <- _. discriminate.
  - intros i r Hi.
    assert (nth_error (map fst disk) i = Some (r_file r)) as Hn
      by (now rewrite <- Hfile, nth_error_map, Hi).
    assert (dicom_meta_to_dataframe disk (r_file r) = Ok r) as Hr.
    { clear H Hfile. revert i Hi Hn. induction Hrows as [|f r' names rows Hr' _ IH];
        intros [|i] Hi Hn; try discriminate.
      - injection Hi as ->. injection Hn as ->. assumption.
      - eapply IH; eassumption. }
    split; [assumption|].
    rewrite nth_error_map in Hn.
    destruct (nth_error disk i) as [x|]; [|discriminate]. injection Hn as Hx.
    apply TableFacts.dicom_meta_to_dataframe_inv in Hr
      as (_ & dcm & Hd & H1 & H2 & H3).
    exists x, dcm. now repeat split.
Qed.

Lemma metadata_rows_witness :
  exists metadata disk,
    run_batch_sim blank_sim CT_small [lit "data"] (lit "fbp") true
      (example_args 200 0 0 2) [lit "CCT189"] [200%Z] 300000 [1; 1 # 2]
      = Ok (metadata, disk) /\
    map r_file metadata = map fst disk /\ length metadata = 6%nat.
Proof.
  assert (exists metadata disk,
            run_batch_sim blank_sim CT_small [lit "data"] (lit "fbp") true
              (example_args 200 0 0 2) [lit "CCT189"] [200%Z] 300000 [1; 1 # 2]
            = Ok (metadata, disk) /\ length metadata = 6%nat)
    as (metadata & disk & E & Hl)
    by (do 2 eexists; split; [eval_batch; reflexivity | reflexivity]).
  exists metadata, disk. split; [exact E|]. split; [|exact Hl].
  exact (proj1 (metadata_rows _ _ _ _ _ _ _ _ _ _ _ _ E)).
Defined.

Module LoopFacts.
Import BatchFacts.

Lemma normalise_idem p : normalise (normalise p) = normalise p.
Proof.
  unfold normalise at 2. destruct (Py.mem p aliases) eqn:E.
  - unfold normalise at 2. now rewrite E.
  - reflexivity.
Qed.

(** The call [run] makes. *)
Lemma run_call octave self verbose self' :
  run octave self verbose = Ok self' ->
  exists c r,
    octave c = Ok r /\ self' = set_results self r /\
    oc_phantom c = normalise (phantom self) /\
    oc_patient_diameter c = inject_Z (patient_diameter self) /\
    oc_I0 c = I0 self /\ oc_nsims c = nsims self /\
    oc_add_noise c = add_noise self /\
    oc_entry c = (if verbose then ct_sim else ct_sim_quiet).
Proof.
  unfold run. intros H. apply bind_Ok in H as (c & Hc & H).
  apply bind_Ok in H as (r & Hr & H). injection H as <-.
  exists c, r. split; [assumption|]. split; [reflexivity|].
  unfold mirt_sim in Hc. apply bind_Ok in Hc as (u & _ & Hc).
  injection Hc as <-. cbn. now repeat split.
Qed.

End LoopFacts.

(** X18: The dose loop never hands the phantom of the model list to the
    constructor: whatever that phantom is, the object is built and
    simulated with the phantom of the keyword arguments (the default
    [CCT189] if none is given), at the dose of the entry, while the files
    are named after the phantom of the list. *)
Theorem batch_simulates_constructor_phantom octave tmpl root fk verbose kw
    doses p pid d sid dose ct fnames w :
  dose_iteration octave tmpl root fk verbose kw doses p pid d
    (patient_name d p) (sid, dose) = Ok (ct, fnames, w) ->
  phantom ct = normalise (k_phantom kw) /\
  (exists c r,
     octave c = Ok r /\
     oc_phantom c = normalise (k_phantom kw) /\
     oc_patient_diameter c = inject_Z d /\ oc_I0 c = dose /\
     oc_nsims c = k_nsims kw /\
     recon ct = Some (Arr3 (slices (out_recon r)))) /\
  patientname ct = patient_name d p /\
  patientid ct = pid /\ studyid ct = sid /\
  forall x, In x w -> PatientName (snd x) = patient_name d p.
Proof.
  intros H. pose proof H as H0.
  apply BatchFacts.dose_iteration_files in H0
    as (pct & _ & _ & _ & Hname & _ & Hws).
  unfold dose_iteration in H.
  apply bind_Ok in H as (pct' & _ & H).
  apply bind_Ok in H as (ct0 & Hinit & H).
  apply bind_Ok in H as (ct1 & Hrun & H).
  apply LoopFacts.run_call in Hrun as (c & r & Hoct & -> & Hc1 & Hc2 & Hc3 & Hc4 & _).
  apply PersistFacts.write_to_dicom_inv in H
    as (rc & _ & _ & _ & Hrc & _ & _ & _ & _ & -> & _).
  cbn [set_results recon] in Hrc. injection Hrc as <-.
  unfold CTobj_init in Hinit. cbn [k_phantom] in Hinit.
  destruct (negb (Py.mem (Py.upper (normalise (k_phantom kw))) options));
    [discriminate|].
  injection Hinit as <-.
  cbn [phantom patient_diameter I0 nsims] in Hc1, Hc2, Hc3, Hc4.
  rewrite LoopFacts.normalise_idem in Hc1.
  split; [reflexivity|]. split.
  - exists c, r. now repeat split.
  - split; [assumption|]. split; [reflexivity|]. split; [reflexivity|].
    intros x Hx. apply In_nth_error in Hx as [i Hi].
    now destruct (Hws i x Hi) as (_ & Hn & _).
Qed.

Lemma batch_simulates_constructor_phantom_witness :
  exists ct fnames w,
    dose_iteration blank_sim CT_small [lit "data"] (lit "fbp") true
      (example_args 200 0 0 1) [300000] (lit "UNIFORM") 0 200
      (patient_name 200 (lit "UNIFORM")) (0%Z, 300000)
    = Ok (ct, fnames, w) /\
    phantom ct = lit "CCT189" /\
    patientname ct = lit "20.0 cm UNIFORM".
Proof.
  match goal with
  | |- exists ct fnames w, ?t = _ /\ _ =>
      let v := eval vm_compute in t in
      match v with
      | Ok (?c, ?n, ?d) =>
          exists c, n, d; assert (t = Ok (c, n, d)) as E
            by (vm_compute; reflexivity)
      end
  end.
  split; [exact E|].
  destruct (batch_simulates_constructor_phantom _ _ _ _ _ _ _ _ _ _ _ _ _ _ _ E)
    as (H1 & _ & H2 & _).
  split; [exact H1 | exact H2].
Defined.

Module AuxFacts.
Import Py PyFacts PathFacts ExtractFacts PersistFacts BatchFacts.




Section Aux.

Variable octave : octave_call -> result sim_output.
Variable tmpl : dataset.
Variable root : Path.
Variable fk : str.
Variable verbose : bool.
Variable kw : ctor_args.



End Aux.


End AuxFacts.



Module DoseFacts.


End DoseFacts.



Module LabelFacts.
Import Py PyFacts.

(** Replacing a character by nothing deletes it wherever it occurs. *)
Lemma replace_char_cons c x s :
  replace [c] [] (x :: s) =
  if Ascii.eqb c x then replace [c] [] s else x :: replace [c] [] s.
Proof.
  rewrite (replace_eq [c] [] (x :: s)) by discriminate.
  rewrite (partition_unfold [c] (x :: s)). cbn [strip_prefix].
  destruct (Ascii.eqb c x); [reflexivity|].
  rewrite (replace_eq [c] [] s) by discriminate.
  destruct (partition [c] s) as [[a b]|]; reflexivity.
Qed.

Lemma replace_char_filter c s :
  replace [c] [] s = filter (fun x => negb (Ascii.eqb c x)) s.
Proof.
  induction s as [|x s IH]; [reflexivity|].
  rewrite replace_char_cons. cbn [filter].
  destruct (Ascii.eqb c x); cbn [negb]; now rewrite IH.
Qed.

End LabelFacts.

(** X21: The kernel part of the folder name is the kernel text with its commas
    and points deleted and nothing else changed, so it holds neither; two
    kernels that differ only in where those characters stand share a
    folder. *)
Theorem kernel_label_deletes fk :
  kernel_label fk
  = filter (fun x => negb (Ascii.eqb "," x) && negb (Ascii.eqb "." x)) fk /\
  ~ In ","%char (kernel_label fk) /\ ~ In "."%char (kernel_label fk) /\
  (forall fk', filter (fun x => negb (Ascii.eqb "," x) && negb (Ascii.eqb "." x)) fk
               = filter (fun x => negb (Ascii.eqb "," x) && negb (Ascii.eqb "." x)) fk' ->
     kernel_label fk = kernel_label fk').
Proof.
  assert (Hf : forall k, kernel_label k
             = filter (fun x => negb (Ascii.eqb "," x) && negb (Ascii.eqb "." x)) k).
  { intros k. unfold kernel_label.
    change (lit ".") with ["."%char]. change (lit ",") with [","%char].
    rewrite !LabelFacts.replace_char_filter.
    induction k as [|x k IH]; [reflexivity|]. cbn [filter].
    destruct (Ascii.eqb "," x); cbn [negb andb filter]; [assumption|].
    destruct (Ascii.eqb "." x); cbn [negb]; now rewrite IH. }
  split; [apply Hf|]. split; [|split].
  - rewrite Hf. intros H. apply filter_In in H as [_ H].
    now rewrite Ascii.eqb_refl in H.
  - rewrite Hf. intros H. apply filter_In in H as [_ H].
    rewrite Ascii.eqb_refl in H. now rewrite andb_false_r in H.
  - intros fk' E. now rewrite !Hf.
Qed.

Lemma kernel_label_deletes_witness :
  kernel_label (lit "hanning,2.05") = kernel_label (lit "hanning,20.5").
Proof.
  apply (proj2 (proj2 (proj2 (kernel_label_deletes (lit "hanning,2.05"))))).
  reflexivity.
Defined.

(** ** Files the extractor cannot read *)

(** X22: The extractor expects the patient name the constructor makes by
    default, with [cm] before the phantom: a file that is missing makes
    it fail with [FileNotFoundError], and every file written from an
    object whose patient name does not contain [cm] (a name of the
    caller's own, say) makes it fail with [IndexError]. *)
Theorem extractor_needs_default_name tmpl self fname gt self' fnames disk :
  write_to_dicom tmpl self fname gt = Ok (self', fnames, disk) ->
  (forall f, ~ In f fnames ->
     dicom_meta_to_dataframe disk f = Raise FileNotFoundError) /\
  (Py.contains (lit "cm") (patientname self) = false ->
   forall f, In f fnames ->
     dicom_meta_to_dataframe disk f = Raise IndexError).
Proof.
  intros H.
  apply PersistFacts.write_to_dicom_inv in H
    as (r & vol & su & st & _ & _ & _ & _ & _ & _ & -> & _ & Hws).
  split.
  - intros f Hf. unfold dicom_meta_to_dataframe, read_file.
    match goal with
    | |- context [find ?p ?l] => destruct (find p l) as [[q dcm]|] eqn:E
    end; [|reflexivity].
    exfalso. apply find_some in E as [Hin Hq]. cbn [fst] in Hq.
    destruct (list_eq_dec (list_eq_dec ascii_dec) q f) as [->|]; [|discriminate].
    apply Hf. apply in_map_iff. exists (f, dcm). split; [reflexivity|].
    now apply in_rev.
  - intros Hcm f Hf.
    destruct (BatchFacts.read_file_In disk f Hf) as (dcm & Hread & Hin).
    apply In_nth_error in Hin as [i Hi].
    destruct (Hws i _ Hi) as (_ & (Hname & _) & _).
    cbn [snd header PatientName] in Hname.
    unfold dicom_meta_to_dataframe. rewrite Hread. cbn [bind].
    rewrite AgeFacts.subgroup_constant. cbn [bind].
    rewrite Hname, PyFacts.split_eq by discriminate.
    now rewrite (PyFacts.contains_false_partition _ _ Hcm).
Qed.

Lemma extractor_needs_default_name_witness :
  exists ct self' fnames disk,
    run blank_sim
      {| phantom := lit "CCT189"; patient_diameter := 200;
         reference_diameter := 200; reference_fov := 340; I0 := 300000;
         geom := default_geometry; add_noise := true; fov := 340; nsims := 1;
         lesion_diameter := LBool false; age := 0;
         patientname := lit "Jane Doe"; patientid := 0;
         studyname := lit "Jane Doe"; studyid := 0; seriesid := 0;
         recon := None; projections := None; groundtruth := None |} true
    = Ok ct /\
    write_to_dicom CT_small ct [lit "out"; lit "image.dcm"] false
      = Ok (self', fnames, disk) /\
    dicom_meta_to_dataframe disk [lit "out"; lit "image.dcm"]
      = Raise IndexError.
Proof.
  match goal with
  | |- exists ct s n d, ?t = _ /\ _ =>
      let v := eval vm_compute in t in
      match v with Ok ?c => exists c end
  end.
  match goal with
  | |- exists s n d, _ /\ write_to_dicom ?t ?ct ?f ?g = _ /\ _ =>
      let v := eval vm_compute in (write_to_dicom t ct f g) in
      match v with
      | Ok (?s, ?n, ?d) =>
          exists s, n, d;
          assert (write_to_dicom t ct f g = Ok (s, n, d)) as E
            by (vm_compute; reflexivity)
      end
  end.
  split; [vm_compute; reflexivity|]. split; [exact E|].
  apply (proj2 (extractor_needs_default_name _ _ _ _ _ _ _ E)).
  - vm_compute. reflexivity.
  - now left.
Defined.

(** ** Running the simulation *)



(** ** The repeat column *)


